(** * HARQ process state machine and event double-buffering of the MAC scheduler

    Shallow embedding of [lib/mac/sched/sched_harq.cc] (HARQ processes and
    their DL/UL wrappers) and of the event list declared in
    [lib/scheduler/event_manager.h], followed by the properties the
    scheduler specification states about them. *)

From Stdlib Require Import ZArith List Bool Lia.
Import ListNotations.
Local Open Scope Z_scope.

(** ** Machine integers

    The counters of a HARQ process are [uint32_t]; they are carried as [Z]
    and every operation that can leave the range has its wrap-around
    written out. *)

Definition UINT32_MAX : Z := 4294967295.

Definition uint32 (z : Z) : Prop := 0 <= z <= UINT32_MAX.

(** Result of an [uint32_t] arithmetic operation. *)
Definition wrap32 (z : Z) : Z := z mod 4294967296.

(** Conversion of an [uint32_t] value to [int] (modulo 2^32, into the two's
    complement range), as done when a function declared to return [int]
    returns an [uint32_t]. *)
Definition to_int (z : Z) : Z := if z <? 2147483648 then z else z - 4294967296.

(** ** Slot points

    [slot_point] is declared outside of the translated sources.  The HARQ
    code only uses its comparison, its difference and its slot index, which
    are taken as an interface. *)

Class SlotPoint (slot_point : Type) : Type := {
  slot_lt : slot_point -> slot_point -> bool;   (* operator< *)
  slot_sub : slot_point -> slot_point -> Z;     (* operator- *)
  slot_index : slot_point -> Z                  (* slot_index() *)
}.

(** Slot numbers of the 15 kHz numerology (ten slots to a frame), far below
    the wrap-around period, compared and subtracted as integers; the slot
    index is the position of the slot in its frame.  Used to run the
    scenarios. *)
#[export] Instance Z_slot : SlotPoint Z := {
  slot_lt := Z.ltb;
  slot_sub := Z.sub;
  slot_index := fun s => s mod 10
}.

(** ** PRB grants *)

(** Modelled from the spec: [prb_grant], [rbg_bitmap] and [prb_interval] are
    declared in headers that are not part of the translated sources.  A grant
    is either a type-0 allocation (a bitmap of resource block groups, whose
    [count()] is the number of allocated groups) or a type-1 allocation (a
    contiguous interval of PRBs, whose [length()] is [stop - start]). *)
Module prb_interval.
Record t : Type := mk { start : Z; stop : Z }.
Definition length (i : t) : Z := stop i - start i.
End prb_interval.

Module rbg_bitmap.
Definition t : Type := list bool.
Definition count (b : t) : Z := Z.of_nat (List.length (filter (fun x => x) b)).
End rbg_bitmap.

Module prb_grant.
Inductive t : Type :=
| alloc_type0 (rbgs : rbg_bitmap.t)
| alloc_type1 (prbs : prb_interval.t).

Definition is_alloc_type0 (g : t) : bool :=
  match g with alloc_type0 _ => true | alloc_type1 _ => false end.

Definition is_alloc_type1 (g : t) : bool := negb (is_alloc_type0 g).

(** The two accessors are only called on a grant of the matching type;
    on the other type they return an empty allocation. *)
Definition rbgs (g : t) : rbg_bitmap.t :=
  match g with alloc_type0 b => b | alloc_type1 _ => [] end.

Definition prbs (g : t) : prb_interval.t :=
  match g with alloc_type1 i => i | alloc_type0 _ => prb_interval.mk 0 0 end.
End prb_grant.

(** ** Transport blocks *)

(** Modelled from the spec: [tb_t] is declared in [sched_harq.h], which is
    not part of the translated sources.  Its fields are the ones listed in
    the data model and used by [sched_harq.cc]; [mcs] and [tbs] are
    [uint32_t] (they are reset to [numeric_limits<uint32_t>::max()]), and so
    is the retransmission counter. *)
Module tb_t.
Inductive state_t : Type := empty | pending_retx | waiting_ack.

Definition state_eqb (a b : state_t) : bool :=
  match a, b with
  | empty, empty | pending_retx, pending_retx | waiting_ack, waiting_ack => true
  | _, _ => false
  end.

Record t : Type := mk {
  state : state_t;
  ack_state : bool;
  ndi : bool;
  n_rtx : Z;
  mcs : Z;
  tbs : Z
}.

Definition with_state (s : state_t) (b : t) : t :=
  mk s (ack_state b) (ndi b) (n_rtx b) (mcs b) (tbs b).
Definition with_ack_state (a : bool) (b : t) : t :=
  mk (state b) a (ndi b) (n_rtx b) (mcs b) (tbs b).
Definition with_ndi (n : bool) (b : t) : t :=
  mk (state b) (ack_state b) n (n_rtx b) (mcs b) (tbs b).
Definition with_n_rtx (n : Z) (b : t) : t :=
  mk (state b) (ack_state b) (ndi b) n (mcs b) (tbs b).
Definition with_mcs (m : Z) (b : t) : t :=
  mk (state b) (ack_state b) (ndi b) (n_rtx b) m (tbs b).
Definition with_tbs (s : Z) (b : t) : t :=
  mk (state b) (ack_state b) (ndi b) (n_rtx b) (mcs b) s.
End tb_t.

(** ** HARQ processes *)

Module harq_proc.
Section WithSlots.
Context {slot_point : Type} `{SlotPoint slot_point}.

(** Modelled from the spec: the class is declared in [sched_harq.h].  A
    process owns one transport block, [tb[0]] (single-codeword model). *)
Record t : Type := mk {
  pid : Z;
  max_retx : Z;
  slot_tx : slot_point;
  slot_ack : slot_point;
  prbs_ : prb_grant.t;
  tb : tb_t.t
}.

Definition with_tb (b : tb_t.t) (h : t) : t :=
  mk (pid h) (max_retx h) (slot_tx h) (slot_ack h) (prbs_ h) b.
Definition with_prbs (g : prb_grant.t) (h : t) : t :=
  mk (pid h) (max_retx h) (slot_tx h) (slot_ack h) g (tb h).
Definition with_slots (s_tx s_ack : slot_point) (h : t) : t :=
  mk (pid h) (max_retx h) s_tx s_ack (prbs_ h) (tb h).
Definition with_max_retx (m : Z) (h : t) : t :=
  mk (pid h) m (slot_tx h) (slot_ack h) (prbs_ h) (tb h).

(** Accessors of the header. *)
Definition state (h : t) : tb_t.state_t := tb_t.state (tb h).
Definition empty (h : t) : bool := tb_t.state_eqb (state h) tb_t.empty.
Definition nof_retx (h : t) : Z := tb_t.n_rtx (tb h).
Definition max_nof_retx (h : t) : Z := max_retx h.
Definition ndi (h : t) : bool := tb_t.ndi (tb h).
Definition mcs (h : t) : Z := tb_t.mcs (tb h).
Definition tbs (h : t) : Z := tb_t.tbs (tb h).

Definition set_state (s : tb_t.state_t) (h : t) : t :=
  with_tb (tb_t.with_state s (tb h)) h.

(** [harq_proc::new_slot] *)
Definition new_slot (slot_rx : slot_point) (h : t) : t :=
  if empty h then h
  else if slot_lt slot_rx (slot_ack h) then h
  else
    let h1 :=
      if tb_t.state_eqb (state h) tb_t.waiting_ack
      then set_state tb_t.pending_retx h else h in
    if max_nof_retx h1 <? wrap32 (nof_retx h1 + 1)
    then set_state tb_t.empty h1 else h1.

(** The two statements [new_slot] runs once the ack slot is reached, in the
    order of the source: the implicit NACK, then the discard check. *)
Definition implicit_nack (h : t) : t :=
  if tb_t.state_eqb (state h) tb_t.waiting_ack
  then set_state tb_t.pending_retx h else h.

Definition discard_check (h : t) : t :=
  if max_nof_retx h <? wrap32 (nof_retx h + 1)
  then set_state tb_t.empty h else h.

(** [harq_proc::ack_info].  The process has a single transport block; an
    index other than 0 is an access outside of [tb] and has no defined
    result. *)
Definition ack_info (tb_idx : Z) (ack : bool) (h : t) : option (Z * t) :=
  if negb (tb_idx =? 0) then None
  else if empty h then Some (-1, h)
  else
    let h1 := with_tb (tb_t.with_ack_state ack (tb h)) h in
    let h2 := if ack then set_state tb_t.empty h1
              else set_state tb_t.pending_retx h1 in
    Some (to_int (if ack then tbs h2 else 0), h2).

(** [harq_proc::reset] *)
Definition reset (h : t) : t :=
  with_tb (tb_t.mk tb_t.empty false (ndi h) 0 UINT32_MAX UINT32_MAX) h.

(** [harq_proc::new_tx] *)
Definition new_tx (slot_tx_ slot_ack_ : slot_point) (grant : prb_grant.t)
    (mcs_ max_retx_ : Z) (h : t) : bool * t :=
  if negb (empty h) then (false, h)
  else
    let h1 := reset h in
    let h2 := with_max_retx max_retx_ h1 in
    let h3 := with_slots slot_tx_ slot_ack_ h2 in
    let h4 := with_prbs grant h3 in
    let h5 := with_tb (tb_t.with_ndi (negb (ndi h4)) (tb h4)) h4 in
    let h6 := with_tb (tb_t.with_mcs mcs_ (tb h5)) h5 in
    let h7 := with_tb (tb_t.with_tbs 0 (tb h6)) h6 in
    (true, set_state tb_t.waiting_ack h7).

(** [harq_proc::set_tbs] *)
Definition set_tbs (tbs_ : Z) (h : t) : bool * t :=
  if empty h || (0 <? nof_retx h) then (false, h)
  else (true, with_tb (tb_t.with_tbs tbs_ (tb h)) h).

(** [harq_proc::set_mcs] *)
Definition set_mcs (mcs_ : Z) (h : t) : bool * t :=
  if empty h || (0 <? nof_retx h) then (false, h)
  else (true, with_tb (tb_t.with_mcs mcs_ (tb h)) h).

(** [harq_proc::new_retx(slot_tx, slot_ack)] *)
Definition new_retx (slot_tx_ slot_ack_ : slot_point) (h : t) : bool * t :=
  if negb (tb_t.state_eqb (state h) tb_t.pending_retx) then (false, h)
  else
    let h1 := with_slots slot_tx_ slot_ack_ h in
    let h2 := set_state tb_t.waiting_ack h1 in
    let h3 := with_tb (tb_t.with_ack_state false (tb h2)) h2 in
    (true, with_tb (tb_t.with_n_rtx (wrap32 (nof_retx h3 + 1)) (tb h3)) h3).

(** The shape test at the head of [harq_proc::new_retx(slot_tx, slot_ack,
    grant)], with the short-circuit evaluation of [or] and [and]. *)
Definition grant_mismatch (grant stored : prb_grant.t) : bool :=
  negb (Bool.eqb (prb_grant.is_alloc_type0 grant) (prb_grant.is_alloc_type0 stored))
  || (prb_grant.is_alloc_type0 grant
      && negb (rbg_bitmap.count (prb_grant.rbgs grant)
               =? rbg_bitmap.count (prb_grant.rbgs stored)))
  || (prb_grant.is_alloc_type1 grant
      && negb (prb_interval.length (prb_grant.prbs grant)
               =? prb_interval.length (prb_grant.prbs stored))).

(** [harq_proc::new_retx(slot_tx, slot_ack, grant)] *)
Definition new_retx_grant (slot_tx_ slot_ack_ : slot_point)
    (grant : prb_grant.t) (h : t) : bool * t :=
  if grant_mismatch grant (prbs_ h) then (false, h)
  else
    let (ok, h1) := new_retx slot_tx_ slot_ack_ h in
    if ok then (true, with_prbs grant h1) else (false, h1).
End WithSlots.
Arguments t slot_point : clear implicits.
End harq_proc.


(** ** Direction-specific wrappers *)

(** Modelled from the spec: the DCI structures are declared outside of the
    translated sources.  Only the fields [fill_dci] reads or writes are kept;
    [f1_0] is the one format the code singles out. *)
Inductive dci_format : Type := f1_0 | f1_1.

Record dci_dl_t : Type := mk_dci_dl {
  dl_format : dci_format;      (* ctx.format *)
  dl_pid : Z;
  dl_ndi : bool;
  dl_mcs : Z;
  dl_rv : Z;
  dl_harq_feedback : Z
}.

Record dci_ul_t : Type := mk_dci_ul {
  ul_pid : Z;
  ul_ndi : bool;
  ul_mcs : Z;
  ul_rv : Z
}.

(** The table [rv_idx] of both [fill_dci] functions, and its lookup
    [rv_idx[nof_retx() % 4]]. *)
Definition rv_idx : list Z := [0; 2; 3; 1].

Definition rv_of (nof_retx : Z) : Z := nth (Z.to_nat (nof_retx mod 4)) rv_idx 0.

Module dl_harq_proc.
Section WithSlots.
Context {slot_point : Type} `{SlotPoint slot_point}.

(** A DL process is a HARQ process together with the PDU it carries. *)
Record t : Type := mk {
  base : harq_proc.t slot_point;
  pdu : list Z
}.

(** [dl_harq_proc::fill_dci] *)
Definition fill_dci (h : t) (dci : dci_dl_t) : dci_dl_t :=
  let b := base h in
  mk_dci_dl (dl_format dci)
            (harq_proc.pid b)
            (harq_proc.ndi b)
            (harq_proc.mcs b)
            (rv_of (harq_proc.nof_retx b))
            (match dl_format dci with
             | f1_0 => slot_sub (harq_proc.slot_ack b) (harq_proc.slot_tx b) - 1
             | _ => slot_index (harq_proc.slot_tx b)
             end).

(** [dl_harq_proc::new_tx] *)
Definition new_tx (slot_tx slot_ack : slot_point) (grant : prb_grant.t)
    (mcs_ max_retx : Z) (h : t) (dci : dci_dl_t) : bool * t * dci_dl_t :=
  let (ok, b) := harq_proc.new_tx slot_tx slot_ack grant mcs_ max_retx (base h) in
  if ok then
    let h1 := mk b [] in
    (true, h1, fill_dci h1 dci)
  else (false, mk b (pdu h), dci).

(** [dl_harq_proc::new_retx] *)
Definition new_retx (slot_tx slot_ack : slot_point) (grant : prb_grant.t)
    (h : t) (dci : dci_dl_t) : bool * t * dci_dl_t :=
  let (ok, b) := harq_proc.new_retx_grant slot_tx slot_ack grant (base h) in
  let h1 := mk b (pdu h) in
  if ok then (true, h1, fill_dci h1 dci) else (false, h1, dci).
End WithSlots.
Arguments t slot_point : clear implicits.
End dl_harq_proc.

Module ul_harq_proc.
Section WithSlots.
Context {slot_point : Type} `{SlotPoint slot_point}.

(** An UL process adds nothing to the state of a HARQ process. *)
Definition t : Type := harq_proc.t slot_point.

(** [ul_harq_proc::fill_dci] *)
Definition fill_dci (h : t) (dci : dci_ul_t) : dci_ul_t :=
  mk_dci_ul (harq_proc.pid h)
            (harq_proc.ndi h)
            (harq_proc.mcs h)
            (rv_of (harq_proc.nof_retx h)).

(** [ul_harq_proc::new_tx]: the ack slot is the transmission slot. *)
Definition new_tx (slot_tx : slot_point) (grant : prb_grant.t)
    (mcs_ max_retx : Z) (h : t) (dci : dci_ul_t) : bool * t * dci_ul_t :=
  let (ok, h1) := harq_proc.new_tx slot_tx slot_tx grant mcs_ max_retx h in
  if ok then (true, h1, fill_dci h1 dci) else (false, h1, dci).

(** [ul_harq_proc::new_retx] *)
Definition new_retx (slot_tx : slot_point) (grant : prb_grant.t)
    (h : t) (dci : dci_ul_t) : bool * t * dci_ul_t :=
  let (ok, h1) := harq_proc.new_retx_grant slot_tx slot_tx grant h in
  if ok then (true, h1, fill_dci h1 dci) else (false, h1, dci).
End WithSlots.
Arguments t slot_point : clear implicits.
End ul_harq_proc.


(** ** Life of a transmission

    The calls a scheduler can make on a process between two new
    transmissions, and the states they lead to. *)

Section Lifecycle.
Context {slot_point : Type} `{SlotPoint slot_point}.

Inductive harq_op : Type :=
| op_new_slot (slot_rx : slot_point)
| op_ack_info (ack : bool)                        (* ack_info(0, ack) *)
| op_set_tbs (tbs : Z)
| op_set_mcs (mcs : Z)
| op_new_retx (slot_tx slot_ack : slot_point)
| op_new_retx_grant (slot_tx slot_ack : slot_point) (grant : prb_grant.t).

(** One call: whether it succeeded, and the process after it. *)
Definition exec (o : harq_op) (h : harq_proc.t slot_point)
    : bool * harq_proc.t slot_point :=
  match o with
  | op_new_slot s => (true, harq_proc.new_slot s h)
  | op_ack_info a =>
      match harq_proc.ack_info 0 a h with
      | Some (r, h') => (0 <=? r, h')
      | None => (false, h)
      end
  | op_set_tbs v => harq_proc.set_tbs v h
  | op_set_mcs v => harq_proc.set_mcs v h
  | op_new_retx s a => harq_proc.new_retx s a h
  | op_new_retx_grant s a g => harq_proc.new_retx_grant s a g h
  end.

Definition is_retx (o : harq_op) : bool :=
  match o with
  | op_new_retx _ _ | op_new_retx_grant _ _ _ => true
  | _ => false
  end.

Definition is_set_tbs (o : harq_op) : bool :=
  match o with
  | op_set_tbs _ => true
  | _ => false
  end.

(** 1 when the call is a retransmission that succeeds, 0 otherwise. *)
Definition retx_done (o : harq_op) (h : harq_proc.t slot_point) : Z :=
  if is_retx o && fst (exec o h) then 1 else 0.

(** [lifecycle h0 k h]: [h] is reached from [h0] by calls other than
    [new_tx], [k] of which were successful retransmissions. *)
Inductive lifecycle (h0 : harq_proc.t slot_point)
    : Z -> harq_proc.t slot_point -> Prop :=
| lifecycle_start : lifecycle h0 0 h0
| lifecycle_step k h o :
    lifecycle h0 k h ->
    lifecycle h0 (k + retx_done o h) (snd (exec o h)).

(** The same, run on a list of calls. *)
Fixpoint run (ops : list harq_op) (h : harq_proc.t slot_point)
    : Z * harq_proc.t slot_point :=
  match ops with
  | [] => (0, h)
  | o :: ops' =>
      let (k, h') := run ops' (snd (exec o h)) in
      (retx_done o h + k, h')
  end.

(** The allocation shape of a grant, as the specification words it: the
    allocation type with the number of RBGs (type 0) or the contiguous
    length (type 1). *)
Inductive grant_shape : Type :=
| shape_type0 (nof_rbgs : Z)
| shape_type1 (length : Z).

Definition shape_of (g : prb_grant.t) : grant_shape :=
  match g with
  | prb_grant.alloc_type0 b => shape_type0 (rbg_bitmap.count b)
  | prb_grant.alloc_type1 i => shape_type1 (prb_interval.length i)
  end.

(** The process [h] after [ack_info(0, ack)] took effect. *)
Definition acked (ack : bool) (h : harq_proc.t slot_point)
    : harq_proc.t slot_point :=
  harq_proc.mk (harq_proc.pid h) (harq_proc.max_retx h) (harq_proc.slot_tx h)
    (harq_proc.slot_ack h) (harq_proc.prbs_ h)
    (tb_t.mk (if ack then tb_t.empty else tb_t.pending_retx) ack
       (harq_proc.ndi h) (harq_proc.nof_retx h) (harq_proc.mcs h)
       (harq_proc.tbs h)).

(** The process [h1] of a new transmission once it has been retransmitted
    [n] times at the same slots, each time after a negative ACK. *)
Definition retx_state (h1 : harq_proc.t slot_point) (n : Z)
    : harq_proc.t slot_point :=
  harq_proc.mk (harq_proc.pid h1) (harq_proc.max_retx h1) (harq_proc.slot_tx h1)
    (harq_proc.slot_ack h1) (harq_proc.prbs_ h1)
    (tb_t.mk tb_t.waiting_ack false (harq_proc.ndi h1) (wrap32 n)
       (harq_proc.mcs h1) (harq_proc.tbs h1)).

(** Range of the counters of a process. *)
Definition wf_harq (h : harq_proc.t slot_point) : Prop :=
  uint32 (harq_proc.max_retx h) /\ uint32 (harq_proc.nof_retx h)
  /\ uint32 (harq_proc.mcs h) /\ uint32 (harq_proc.tbs h).

End Lifecycle.
Arguments harq_op slot_point : clear implicits.

(** ** A scheduler that never gets feedback

    Slots are plain integers here.  Every slot the process is advanced with
    [new_slot]; when that leaves it pending, it is retransmitted in the same
    slot, with its feedback expected [k1] slots later. *)

Inductive slot_event : Type :=
| ev_none                 (* nothing happened *)
| ev_nack_retx            (* implicit NACK, followed by a retransmission *)
| ev_discard.             (* the process was emptied by [new_slot] *)

Definition no_feedback_slot (k1 : Z) (s : Z) (h : harq_proc.t Z)
    : slot_event * harq_proc.t Z :=
  let was_empty := harq_proc.empty h in
  let h1 := harq_proc.new_slot s h in
  if negb was_empty && harq_proc.empty h1 then (ev_discard, h1)
  else
    let (ok, h2) := harq_proc.new_retx s (s + k1) h1 in
    if ok then (ev_nack_retx, h2) else (ev_none, h2).

Fixpoint no_feedback_run (k1 : Z) (n : nat) (s : Z) (h : harq_proc.t Z)
    : list (Z * slot_event) * harq_proc.t Z :=
  match n with
  | O => ([], h)
  | S n' =>
      let (e, h1) := no_feedback_slot k1 s h in
      let (log, h2) := no_feedback_run k1 n' (s + 1) h1 in
      ((s, e) :: log, h2)
  end.

Definition slots_of (e : slot_event) (log : list (Z * slot_event)) : list Z :=
  map fst (filter (fun p => match snd p, e with
                            | ev_none, ev_none | ev_nack_retx, ev_nack_retx
                            | ev_discard, ev_discard => true
                            | _, _ => false
                            end) log).

(** Modelled from the spec: the default member initialisers are in
    [sched_harq.h]; a process built by the constructor [harq_proc(id)] is
    empty. *)
Definition fresh_harq {slot_point : Type} (id : Z) (s0 : slot_point)
    : harq_proc.t slot_point :=
  harq_proc.mk id 1 s0 s0 (prb_grant.alloc_type1 (prb_interval.mk 0 0))
               (tb_t.mk tb_t.empty false false 0 0 0).

(** The process of the examples: a new transmission at slot 10 with its
    feedback expected at slot 14. *)
Definition example_grant : prb_grant.t :=
  prb_grant.alloc_type1 (prb_interval.mk 0 10).

Definition example_tx (max_retx_ : Z) : harq_proc.t Z :=
  snd (harq_proc.new_tx 10 14 example_grant 5 max_retx_ (fresh_harq 0 0)).


(** ** Event lists of the event manager *)

(** Modelled from the spec: [event_manager.h] declares the event list (a
    mutex, [next_events] and [current_events]), one list per cell and one
    common to all cells; the functions that fill and drain the lists are in
    [event_manager.cpp], which is not part of the translated sources.
    Following the slot processing protocol of the specification: a producer
    appends to [next_events] under the lock; the consumer exchanges the two
    buffers under the lock at the start of the processing of a slot, then
    drains [current_events] in order and finally clears it.  A drained event
    whose UE index or cell index fails the existence checks is logged and
    dropped; on the common list, a drained event that requires
    synchronisation across cells while the carriers of its UE are not yet at
    the same slot is enqueued again for the next slot; otherwise the callback
    of the event is invoked.  What runs under the lock is one atomic step;
    producer steps may come between any two consumer steps.  Slots are
    processed one after the other, each run being for the slot that follows
    the previous one.  An event that the manager processes at the caller,
    without enqueuing it, never enters a list and is not part of the model. *)
Module event_manager.
Section WithScheduler.

(** The state the callbacks act on (UE database, cells, HARQ entities). *)
Variable sched_state : Type.

Record event_t : Type := mk_event {
  ue_index : Z;
  callback : sched_state -> sched_state
}.

(** The existence checks made on what a drained event refers to; whether
    the event has to wait for the carriers of its UE; and whether the list is
    the one common to all cells. *)
Variable valid : sched_state -> event_t -> bool.
Variable must_wait : sched_state -> event_t -> bool.
Variable common : bool.

(** An event in a buffer, with the slot that was being processed when it was
    enqueued (kept for the statements only). *)
Record queued : Type := mk_queued {
  event : event_t;
  enq_slot : Z
}.

Record event_list : Type := mk_event_list {
  next_events : list queued;
  current_events : list queued
}.

Inductive outcome : Type := applied | dropped | requeued.

(** One event taken out of [current_events]: the slot whose processing drained
    it, the scheduler state it met, and what became of it. *)
Record handled : Type := mk_handled {
  at_slot : Z;
  what : queued;
  before : sched_state;
  how : outcome
}.

Record t : Type := mk {
  events : event_list;
  sl_tx : Z;                          (* slot being processed, or processed last *)
  draining : option (list queued);    (* events left to drain while a slot runs *)
  sched : sched_state;
  history : list queued;              (* every event enqueued so far *)
  log : list handled                  (* every event drained so far *)
}.

Inductive action : Type :=
| enqueue (e : event_t)     (* producer: append to [next_events] *)
| swap                      (* consumer: start of slot [sl_tx + 1] *)
| handle                    (* consumer: next event of [current_events] *)
| clear.                    (* consumer: end of the drain *)

(** What the consumer does with a drained event. *)
Definition verdict (st : sched_state) (e : event_t) : outcome :=
  if negb (valid st e) then dropped
  else if common && must_wait st e then requeued
  else applied.

(** The drained event as logged, the scheduler state after it, and the event
    enqueued again, if any. *)
Definition handle_event (sl : Z) (q : queued) (st : sched_state)
    : handled * sched_state * list queued :=
  match verdict st (event q) with
  | applied => (mk_handled sl q st applied, callback (event q) st, [])
  | dropped => (mk_handled sl q st dropped, st, [])
  | requeued => (mk_handled sl q st requeued, st, [mk_queued (event q) sl])
  end.

(** The producer's append. *)
Definition enqueue_one (e : event_t) (s : t) : t :=
  let q := mk_queued e (sl_tx s) in
  mk (mk_event_list (next_events (events s) ++ [q]) (current_events (events s)))
     (sl_tx s) (draining s) (sched s) (history s ++ [q]) (log s).

Definition step (a : action) (s : t) : option t :=
  match a with
  | enqueue e => Some (enqueue_one e s)
  | swap =>
      match draining s with
      | Some _ => None
      | None =>
          Some (mk (mk_event_list (current_events (events s))
                                  (next_events (events s)))
                   (sl_tx s + 1) (Some (next_events (events s)))
                   (sched s) (history s) (log s))
      end
  | handle =>
      match draining s with
      | Some (q :: rest) =>
          let '(h, st, again) := handle_event (sl_tx s) q (sched s) in
          Some (mk (mk_event_list (next_events (events s) ++ again)
                                  (current_events (events s)))
                   (sl_tx s) (Some rest) st (history s ++ again) (log s ++ [h]))
      | _ => None
      end
  | clear =>
      match draining s with
      | Some [] =>
          Some (mk (mk_event_list (next_events (events s)) [])
                   (sl_tx s) None (sched s) (history s) (log s))
      | _ => None
      end
  end.

Fixpoint exec (tr : list action) (s : t) : option t :=
  match tr with
  | [] => Some s
  | a :: tr' =>
      match step a s with
      | Some s' => exec tr' s'
      | None => None
      end
  end.

(** Before the first slot: empty buffers, nothing running. *)
Definition init (st : sched_state) (sl : Z) : t :=
  mk (mk_event_list [] []) sl None st [] [].

(** The effect of a drained event on the scheduler state. *)
Definition effect (st : sched_state) (h : handled) : sched_state :=
  match how h with
  | applied => callback (event (what h)) st
  | _ => st
  end.

Definition pending (s : t) : list queued :=
  match draining s with
  | Some r => r
  | None => []
  end.

(** Events arriving together from the producers. *)
Definition enqueue_batch (es : list event_t) (s : t) : t :=
  fold_left (fun s' e => enqueue_one e s') es s.

(** The drain loop over the events [r] left in [current_events], then the
    clearing of the buffer.  [arrivals] gives the events the producers
    enqueue before each step of the consumer; what is left of it arrives
    before the buffer is cleared. *)
Fixpoint finish (r : list queued) (arrivals : list (list event_t)) (s : t)
    : option t :=
  match r with
  | [] => step clear (enqueue_batch (concat arrivals) s)
  | _ :: r' =>
      match step handle (enqueue_batch (hd [] arrivals) s) with
      | Some s' => finish r' (tl arrivals) s'
      | None => None
      end
  end.

(** The rest of the processing of the current slot, if one is running. *)
Definition finish_current (arrivals : list (list event_t)) (s : t) : option t :=
  match draining s with
  | Some r => finish r arrivals s
  | None => Some s
  end.

(** The processing of one slot: the swap, the drain, the clearing. *)
Definition run_slot (arrivals : list (list event_t)) (s : t) : option t :=
  match step swap s with
  | Some s1 => finish (pending s1) arrivals s1
  | None => None
  end.

End WithScheduler.

(** The scheduler states met by the drained events follow from one
    another. *)
Fixpoint consistent {sched_state : Type} (st : sched_state)
    (l : list (handled sched_state)) : Prop :=
  match l with
  | [] => True
  | h :: l' => before _ h = st /\ consistent (effect _ st h) l'
  end.

Arguments ue_index {sched_state}.
Arguments callback {sched_state}.
Arguments event {sched_state}.
Arguments enq_slot {sched_state}.
Arguments mk_event_list {sched_state}.
Arguments next_events {sched_state}.
Arguments current_events {sched_state}.
Arguments at_slot {sched_state}.
Arguments what {sched_state}.
Arguments before {sched_state}.
Arguments how {sched_state}.
Arguments mk {sched_state}.
Arguments events {sched_state}.
Arguments sl_tx {sched_state}.
Arguments draining {sched_state}.
Arguments sched {sched_state}.
Arguments history {sched_state}.
Arguments log {sched_state}.
Arguments verdict {sched_state}.
Arguments handle_event {sched_state}.
Arguments enqueue_one {sched_state}.
Arguments step {sched_state}.
Arguments exec {sched_state}.
Arguments init {sched_state}.
Arguments effect {sched_state}.
Arguments pending {sched_state}.
Arguments enqueue_batch {sched_state}.
Arguments finish {sched_state}.
Arguments finish_current {sched_state}.
Arguments run_slot {sched_state}.
Arguments mk_event {sched_state}.
Arguments mk_queued {sched_state}.
Arguments mk_handled {sched_state}.
Arguments enqueue {sched_state}.
Arguments swap {sched_state}.
Arguments handle {sched_state}.
Arguments clear {sched_state}.
End event_manager.

Section EventManagerInvariant.
Import event_manager.
Variable sched_state : Type.
Variable valid : sched_state -> event_t sched_state -> bool.
Variable must_wait : sched_state -> event_t sched_state -> bool.
Variable common : bool.
Variable st0 : sched_state.

(** What holds of every state of an execution. *)
Record em_inv (s : event_manager.t sched_state) : Prop := mk_em_inv {
  inv_next : Forall (fun q => enq_slot q = sl_tx s) (next_events (events s));
  inv_current :
    Forall (fun q => enq_slot q + 1 = sl_tx s) (current_events (events s));
  inv_draining :
    match draining s with
    | Some r => exists pre, current_events (events s) = pre ++ r
    | None => current_events (events s) = []
    end;
  inv_log :
    Forall (fun h =>
              at_slot h = enq_slot (what h) + 1 /\
              at_slot h <= sl_tx s /\
              how h = verdict valid must_wait common (before h) (event (what h)))
           (log s);
  inv_history :
    history s = map what (log s) ++ pending s ++ next_events (events s);
  inv_sched : sched s = fold_left effect (log s) st0;
  inv_before : consistent st0 (log s)
}.

End EventManagerInvariant.
Arguments em_inv {sched_state}.

(** A scheduler state for the examples: the indices of the existing UEs and
    the UEs with a scheduling request pending.  An event is valid when its UE
    exists; UE 2 uses carrier aggregation and its carriers are not at the same
    slot. *)
Definition example_sched : Type := list Z * list Z.

Definition example_valid (st : example_sched)
    (e : event_manager.event_t example_sched) : bool :=
  existsb (Z.eqb (event_manager.ue_index e)) (fst st).

Definition example_must_wait (st : example_sched)
    (e : event_manager.event_t example_sched) : bool :=
  event_manager.ue_index e =? 2.

Definition sr_event (ue : Z) : event_manager.event_t example_sched :=
  event_manager.mk_event ue (fun st => (fst st, ue :: snd st)).

(** The manager while it processes slot 1, nothing enqueued yet. *)
Definition example_slot1 : event_manager.t example_sched :=
  event_manager.mk (event_manager.mk_event_list [] []) 1 (Some [])
                   ([1; 2], []) [] [].

(** ** Calls on a process, new transmissions included *)

Section Calls.
Context {slot_point : Type} `{SlotPoint slot_point}.

Inductive harq_call : Type :=
| call_new_tx (slot_tx slot_ack : slot_point) (grant : prb_grant.t)
              (mcs max_retx : Z)
| call_op (o : harq_op slot_point).

Definition do_call (c : harq_call) (h : harq_proc.t slot_point)
    : bool * harq_proc.t slot_point :=
  match c with
  | call_new_tx s a g m r => harq_proc.new_tx s a g m r h
  | call_op o => exec o h
  end.

Fixpoint do_calls (cs : list harq_call) (h : harq_proc.t slot_point)
    : harq_proc.t slot_point :=
  match cs with
  | [] => h
  | c :: cs' => do_calls cs' (snd (do_call c h))
  end.

(** The ack flag of a process. *)
Definition ack_state (h : harq_proc.t slot_point) : bool :=
  tb_t.ack_state (harq_proc.tb h).

End Calls.
Arguments harq_call slot_point : clear implicits.

(** ** HARQ entities *)

Module harq_entity.

Inductive direction : Type := DL | UL.

(** The arguments of one "discarding ..." message given to the logger. *)
Record discard_msg : Type := mk_msg {
  msg_rnti : Z;
  msg_dir : direction;
  msg_pid : Z;
  msg_max_retx : Z
}.

Section WithSlots.
Context {slot_point : Type} `{SlotPoint slot_point}.

(** The entity of one UE; [logger] holds the messages given to the logger
    so far. *)
Record t : Type := mk {
  rnti : Z;
  dl_harqs : list (dl_harq_proc.t slot_point);
  ul_harqs : list (ul_harq_proc.t slot_point);
  slot_rx : slot_point;
  logger : list discard_msg
}.

(** The loop of the constructor, from process id [pid] on. *)
Fixpoint create_dl (s0 : slot_point) (count : nat) (pid : Z)
    : list (dl_harq_proc.t slot_point) :=
  match count with
  | O => []
  | S count' =>
      dl_harq_proc.mk (fresh_harq pid s0) [] :: create_dl s0 count' (pid + 1)
  end.

Fixpoint create_ul (s0 : slot_point) (count : nat) (pid : Z)
    : list (ul_harq_proc.t slot_point) :=
  match count with
  | O => []
  | S count' => fresh_harq pid s0 :: create_ul s0 count' (pid + 1)
  end.

(** [harq_entity::harq_entity]; [s0] is the default slot point. *)
Definition make (rnti_ nprb nof_harq_procs : Z) (s0 : slot_point) : t :=
  mk rnti_
     (create_dl s0 (Z.to_nat nof_harq_procs) 0)
     (create_ul s0 (Z.to_nat nof_harq_procs) 0)
     s0 [].

(** The body of both loops of [harq_entity::new_slot]: the process after
    [new_slot], and the message logged when the call emptied it. *)
Definition advance (dir : direction) (rnti_ : Z) (slot_rx_ : slot_point)
    (h : harq_proc.t slot_point) : harq_proc.t slot_point * list discard_msg :=
  let was_empty := harq_proc.empty h in
  let h' := harq_proc.new_slot slot_rx_ h in
  (h',
   if negb was_empty && harq_proc.empty h'
   then [mk_msg rnti_ dir (harq_proc.pid h') (harq_proc.max_nof_retx h')]
   else []).

Fixpoint advance_dl (rnti_ : Z) (slot_rx_ : slot_point)
    (ds : list (dl_harq_proc.t slot_point))
    : list (dl_harq_proc.t slot_point) * list discard_msg :=
  match ds with
  | [] => ([], [])
  | d :: ds' =>
      let (b, m) := advance DL rnti_ slot_rx_ (dl_harq_proc.base d) in
      let (ds'', ms) := advance_dl rnti_ slot_rx_ ds' in
      (dl_harq_proc.mk b (dl_harq_proc.pdu d) :: ds'', m ++ ms)
  end.

Fixpoint advance_ul (rnti_ : Z) (slot_rx_ : slot_point)
    (us : list (ul_harq_proc.t slot_point))
    : list (ul_harq_proc.t slot_point) * list discard_msg :=
  match us with
  | [] => ([], [])
  | u :: us' =>
      let (u', m) := advance UL rnti_ slot_rx_ u in
      let (us'', ms) := advance_ul rnti_ slot_rx_ us' in
      (u' :: us'', m ++ ms)
  end.

(** [harq_entity::new_slot] *)
Definition new_slot (slot_rx_ : slot_point) (e : t) : t :=
  let (dl', m_dl) := advance_dl (rnti e) slot_rx_ (dl_harqs e) in
  let (ul', m_ul) := advance_ul (rnti e) slot_rx_ (ul_harqs e) in
  mk (rnti e) dl' ul' slot_rx_ (logger e ++ m_dl ++ m_ul).

(** Whether [new_slot] at [slot_rx_] discards the process: it is in use, its
    ack slot is reached and one more retransmission would exceed the
    maximum. *)
Definition discarded (slot_rx_ : slot_point) (h : harq_proc.t slot_point)
    : bool :=
  negb (harq_proc.empty h)
  && negb (slot_lt slot_rx_ (harq_proc.slot_ack h))
  && (harq_proc.max_nof_retx h <? wrap32 (harq_proc.nof_retx h + 1)).

Definition msg_of (dir : direction) (rnti_ : Z) (h : harq_proc.t slot_point)
    : discard_msg :=
  mk_msg rnti_ dir (harq_proc.pid h) (harq_proc.max_nof_retx h).

(** The process ids of the two arrays. *)
Definition dl_pids (e : t) : list Z :=
  map (fun d => harq_proc.pid (dl_harq_proc.base d)) (dl_harqs e).

Definition ul_pids (e : t) : list Z := map harq_proc.pid (ul_harqs e).

(** The ids 0, 1, ..., [n - 1]. *)
Definition ids (n : nat) : list Z := map Z.of_nat (seq 0 n).

End WithSlots.
Arguments t slot_point : clear implicits.
End harq_entity.

(** An entity of two processes per direction, the first DL process in its
    last retransmission round. *)
Definition example_entity : harq_entity.t Z :=
  harq_entity.mk 17921
    [dl_harq_proc.mk (example_tx 0) [1; 2]; dl_harq_proc.mk (fresh_harq 1 0) []]
    [example_tx 4; fresh_harq 1 0]
    13 [].


(** * Properties *)

(** ** Basic facts *)

Lemma state_eqb_eq (a b : tb_t.state_t) : tb_t.state_eqb a b = true <-> a = b.
Proof. destruct a, b; simpl; split; congruence. Qed.

Lemma state_eqb_neq (a b : tb_t.state_t) : tb_t.state_eqb a b = false <-> a <> b.
Proof. destruct a, b; simpl; split; congruence. Qed.

Lemma wrap32_small (z : Z) : 0 <= z < 4294967296 -> wrap32 z = z.
Proof. intros Hz. unfold wrap32. apply Z.mod_small. exact Hz. Qed.

Lemma wrap32_range (z : Z) : uint32 (wrap32 z).
Proof.
  unfold uint32, wrap32, UINT32_MAX.
  pose proof (Z.mod_pos_bound z 4294967296 ltac:(lia)). lia.
Qed.

Lemma wrap32_succ_wrap (z : Z) : wrap32 (wrap32 z + 1) = wrap32 (z + 1).
Proof. unfold wrap32. rewrite Zplus_mod_idemp_l. reflexivity. Qed.

Lemma wrap32_mod4 (z : Z) : wrap32 z mod 4 = z mod 4.
Proof.
  unfold wrap32.
  rewrite (Z.div_mod z 4294967296) at 2 by lia.
  replace (4294967296 * (z / 4294967296) + z mod 4294967296)
    with (z mod 4294967296 + (z / 4294967296 * 1073741824) * 4) by lia.
  rewrite Z.mod_add by lia. reflexivity.
Qed.

Lemma to_int_small (z : Z) : z < 2147483648 -> to_int z = z.
Proof. intros Hz. unfold to_int. destruct (Z.ltb_spec z 2147483648); lia. Qed.

Section HarqFacts.
Context {slot_point : Type} `{SlotPoint slot_point}.
Implicit Types (h : harq_proc.t slot_point) (g : prb_grant.t).

Lemma empty_true h : harq_proc.empty h = true <-> harq_proc.state h = tb_t.empty.
Proof. unfold harq_proc.empty. apply state_eqb_eq. Qed.

Lemma empty_false h : harq_proc.empty h = false <-> harq_proc.state h <> tb_t.empty.
Proof. unfold harq_proc.empty. apply state_eqb_neq. Qed.

(** The shape test of the source rejects exactly the grants whose shape, in
    the words of the specification, differs from the stored one. *)
Lemma grant_mismatch_shape g g' :
  harq_proc.grant_mismatch g g' = false <-> shape_of g = shape_of g'.
Proof.
  unfold harq_proc.grant_mismatch, prb_grant.is_alloc_type1.
  destruct g as [b|i], g' as [b'|i']; simpl.
  - rewrite orb_false_r.
    destruct (Z.eqb_spec (rbg_bitmap.count b) (rbg_bitmap.count b')) as [E|E];
      simpl; split; intros Hs; congruence.
  - split; intros Hs; discriminate.
  - split; intros Hs; discriminate.
  - destruct (Z.eqb_spec (prb_interval.length i) (prb_interval.length i')) as [E|E];
      simpl; split; intros Hs; congruence.
Qed.

Lemma new_retx_ok slot_tx_ slot_ack_ h :
  harq_proc.state h = tb_t.pending_retx ->
  harq_proc.new_retx slot_tx_ slot_ack_ h =
  (true,
   harq_proc.mk (harq_proc.pid h) (harq_proc.max_retx h) slot_tx_ slot_ack_
     (harq_proc.prbs_ h)
     (tb_t.mk tb_t.waiting_ack false (harq_proc.ndi h)
        (wrap32 (harq_proc.nof_retx h + 1)) (harq_proc.mcs h) (harq_proc.tbs h))).
Proof.
  intros Hs. unfold harq_proc.new_retx. rewrite Hs. simpl. reflexivity.
Qed.

Lemma new_retx_fail slot_tx_ slot_ack_ h :
  harq_proc.state h <> tb_t.pending_retx ->
  harq_proc.new_retx slot_tx_ slot_ack_ h = (false, h).
Proof.
  intros Hs. unfold harq_proc.new_retx.
  apply state_eqb_neq in Hs. rewrite Hs. reflexivity.
Qed.

Lemma new_retx_cases slot_tx_ slot_ack_ h :
  (harq_proc.state h = tb_t.pending_retx /\
   fst (harq_proc.new_retx slot_tx_ slot_ack_ h) = true) \/
  (harq_proc.state h <> tb_t.pending_retx /\
   harq_proc.new_retx slot_tx_ slot_ack_ h = (false, h)).
Proof.
  destruct (harq_proc.state h) eqn:Hs.
  - right. split; [discriminate|]. apply new_retx_fail. congruence.
  - left. split; [reflexivity|]. rewrite new_retx_ok by assumption. reflexivity.
  - right. split; [discriminate|]. apply new_retx_fail. congruence.
Qed.

Lemma new_tx_ok slot_tx_ slot_ack_ g mcs_ max_retx_ h :
  harq_proc.state h = tb_t.empty ->
  harq_proc.new_tx slot_tx_ slot_ack_ g mcs_ max_retx_ h =
  (true,
   harq_proc.mk (harq_proc.pid h) max_retx_ slot_tx_ slot_ack_ g
     (tb_t.mk tb_t.waiting_ack false (negb (harq_proc.ndi h)) 0 mcs_ 0)).
Proof.
  intros Hs. unfold harq_proc.new_tx.
  apply empty_true in Hs. rewrite Hs. reflexivity.
Qed.

Lemma new_tx_fail slot_tx_ slot_ack_ g mcs_ max_retx_ h :
  harq_proc.state h <> tb_t.empty ->
  harq_proc.new_tx slot_tx_ slot_ack_ g mcs_ max_retx_ h = (false, h).
Proof.
  intros Hs. unfold harq_proc.new_tx.
  apply empty_false in Hs. rewrite Hs. reflexivity.
Qed.

Lemma new_tx_inv slot_tx_ slot_ack_ g mcs_ max_retx_ h h1 :
  harq_proc.new_tx slot_tx_ slot_ack_ g mcs_ max_retx_ h = (true, h1) ->
  harq_proc.state h = tb_t.empty /\
  h1 = harq_proc.mk (harq_proc.pid h) max_retx_ slot_tx_ slot_ack_ g
         (tb_t.mk tb_t.waiting_ack false (negb (harq_proc.ndi h)) 0 mcs_ 0).
Proof.
  intros Hn. destruct (harq_proc.state h) eqn:Hs.
  - rewrite new_tx_ok in Hn by assumption. split; congruence.
  - rewrite new_tx_fail in Hn by congruence. discriminate.
  - rewrite new_tx_fail in Hn by congruence. discriminate.
Qed.

Lemma new_slot_empty slot_rx h :
  harq_proc.state h = tb_t.empty -> harq_proc.new_slot slot_rx h = h.
Proof.
  intros Hs. apply empty_true in Hs.
  unfold harq_proc.new_slot. rewrite Hs. reflexivity.
Qed.

Lemma new_slot_early slot_rx h :
  slot_lt slot_rx (harq_proc.slot_ack h) = true ->
  harq_proc.new_slot slot_rx h = h.
Proof.
  intros Hr. unfold harq_proc.new_slot. rewrite Hr.
  destruct (harq_proc.empty h); reflexivity.
Qed.

End HarqFacts.

(** ** What a call other than [new_tx] can change *)

Section Frames.
Context {slot_point : Type} `{SlotPoint slot_point}.
Implicit Types (h : harq_proc.t slot_point) (g : prb_grant.t).
Implicit Types (o : harq_op slot_point).

Lemma new_slot_frame slot_rx h :
  let h' := harq_proc.new_slot slot_rx h in
  harq_proc.pid h' = harq_proc.pid h /\
  harq_proc.max_retx h' = harq_proc.max_retx h /\
  harq_proc.slot_tx h' = harq_proc.slot_tx h /\
  harq_proc.slot_ack h' = harq_proc.slot_ack h /\
  harq_proc.prbs_ h' = harq_proc.prbs_ h /\
  harq_proc.ndi h' = harq_proc.ndi h /\
  harq_proc.nof_retx h' = harq_proc.nof_retx h /\
  harq_proc.mcs h' = harq_proc.mcs h /\
  harq_proc.tbs h' = harq_proc.tbs h /\
  tb_t.ack_state (harq_proc.tb h') = tb_t.ack_state (harq_proc.tb h).
Proof.
  unfold harq_proc.new_slot.
  destruct (harq_proc.empty h); [simpl; tauto|].
  destruct (slot_lt slot_rx (harq_proc.slot_ack h)); [simpl; tauto|].
  destruct (tb_t.state_eqb (harq_proc.state h) tb_t.waiting_ack);
    match goal with
    | |- context [if ?c then _ else _] => destruct c
    end; simpl; tauto.
Qed.

Lemma retx_done_cases o h : retx_done o h = 0 \/ retx_done o h = 1.
Proof. unfold retx_done. destruct (is_retx o && fst (exec o h)); auto. Qed.

Lemma exec_frame o h :
  let h' := snd (exec o h) in
  harq_proc.pid h' = harq_proc.pid h /\
  harq_proc.max_retx h' = harq_proc.max_retx h /\
  harq_proc.ndi h' = harq_proc.ndi h /\
  shape_of (harq_proc.prbs_ h') = shape_of (harq_proc.prbs_ h) /\
  harq_proc.nof_retx h' =
    (if retx_done o h =? 1 then wrap32 (harq_proc.nof_retx h + 1)
     else harq_proc.nof_retx h).
Proof.
  destruct o as [s|a|v|v|s a|s a g]; unfold retx_done; simpl.
  - pose proof (new_slot_frame s h) as F. simpl in F.
    intuition congruence.
  - unfold harq_proc.ack_info; simpl.
    destruct (harq_proc.empty h); [simpl; tauto|].
    destruct a; simpl; tauto.
  - unfold harq_proc.set_tbs.
    destruct (harq_proc.empty h || (0 <? harq_proc.nof_retx h)); simpl; tauto.
  - unfold harq_proc.set_mcs.
    destruct (harq_proc.empty h || (0 <? harq_proc.nof_retx h)); simpl; tauto.
  - destruct (new_retx_cases s a h) as [[Hs Hok]|[Hs Hf]].
    + rewrite new_retx_ok in * by assumption. simpl. tauto.
    + rewrite Hf. simpl. tauto.
  - unfold harq_proc.new_retx_grant.
    destruct (harq_proc.grant_mismatch g (harq_proc.prbs_ h)) eqn:Hm;
      [simpl; tauto|].
    apply grant_mismatch_shape in Hm.
    destruct (new_retx_cases s a h) as [[Hs Hok]|[Hs Hf]].
    + rewrite new_retx_ok by assumption. simpl. tauto.
    + rewrite Hf. simpl. tauto.
Qed.

Lemma lifecycle_inv h0 k h :
  lifecycle h0 k h ->
  0 <= k /\
  harq_proc.pid h = harq_proc.pid h0 /\
  harq_proc.max_retx h = harq_proc.max_retx h0 /\
  harq_proc.ndi h = harq_proc.ndi h0 /\
  shape_of (harq_proc.prbs_ h) = shape_of (harq_proc.prbs_ h0) /\
  (uint32 (harq_proc.nof_retx h0) ->
   harq_proc.nof_retx h = wrap32 (harq_proc.nof_retx h0 + k)).
Proof.
  induction 1 as [|k h o Hl IH].
  - repeat split; try lia. intros Hr. rewrite Z.add_0_r.
    symmetry. apply wrap32_small. unfold uint32, UINT32_MAX in Hr. lia.
  - destruct IH as (Hk & Hp & Hm & Hn & Hg & Hc).
    pose proof (exec_frame o h) as F. simpl in F.
    destruct F as (Fp & Fm & Fn & Fg & Fc).
    pose proof (retx_done_cases o h) as [D|D].
    + rewrite D in *. rewrite Z.add_0_r. simpl in Fc.
      repeat split; try congruence; try lia.
      intros Hr. rewrite Fc. auto.
    + rewrite D in *. simpl in Fc.
      repeat split; try congruence; try lia.
      intros Hr. rewrite Fc, (Hc Hr), wrap32_succ_wrap.
      f_equal. lia.
Qed.

(** A list of calls is a lifecycle. *)
Lemma run_lifecycle (ops : list (harq_op slot_point)) h0 :
  forall k h, lifecycle h0 k h ->
  lifecycle h0 (k + fst (run ops h)) (snd (run ops h)).
Proof.
  induction ops as [|o ops IH]; intros k h Hl; simpl.
  - rewrite Z.add_0_r. exact Hl.
  - destruct (run ops (snd (exec o h))) as [k' h'] eqn:Hr. simpl.
    specialize (IH _ _ (lifecycle_step h0 k h o Hl)).
    rewrite Hr in IH. simpl in IH.
    rewrite Z.add_assoc. exact IH.
Qed.

(** The counters of a process stay in the range of [uint32_t]. *)
Lemma exec_wf o h :
  wf_harq h ->
  match o with
  | op_set_tbs v | op_set_mcs v => uint32 v
  | _ => True
  end ->
  wf_harq (snd (exec o h)).
Proof.
  unfold wf_harq. intros (Hm & Hn & Hc & Ht) Hv.
  pose proof (exec_frame o h) as F. simpl in F.
  destruct F as (_ & Fm & _ & _ & Fc).
  rewrite Fm, Fc. split; [exact Hm|]. split.
  { destruct (retx_done o h =? 1); [apply wrap32_range|exact Hn]. }
  destruct o as [s|a|v|v|s a|s a g]; simpl.
  - pose proof (new_slot_frame s h) as F. simpl in F.
    destruct F as (_ & _ & _ & _ & _ & _ & _ & F1 & F2 & _).
    rewrite F1, F2. tauto.
  - unfold harq_proc.ack_info; simpl.
    destruct (harq_proc.empty h); [simpl; tauto|].
    destruct a; simpl; tauto.
  - unfold harq_proc.set_tbs.
    destruct (harq_proc.empty h || (0 <? harq_proc.nof_retx h)); simpl; tauto.
  - unfold harq_proc.set_mcs.
    destruct (harq_proc.empty h || (0 <? harq_proc.nof_retx h)); simpl; tauto.
  - destruct (new_retx_cases s a h) as [[Hs Hok]|[Hs Hf]].
    + rewrite new_retx_ok by assumption. simpl. tauto.
    + rewrite Hf. simpl. tauto.
  - unfold harq_proc.new_retx_grant.
    destruct (harq_proc.grant_mismatch g (harq_proc.prbs_ h)); [simpl; tauto|].
    destruct (new_retx_cases s a h) as [[Hs Hok]|[Hs Hf]].
    + rewrite new_retx_ok by assumption. simpl. tauto.
    + rewrite Hf. simpl. tauto.
Qed.

End Frames.

(** ** The state machine of a HARQ process *)

Section HarqClaims.
Context {slot_point : Type} `{SlotPoint slot_point}.
Implicit Types (h : harq_proc.t slot_point) (g : prb_grant.t).
Implicit Types (o : harq_op slot_point).

Lemma ack_info_nonempty ack h :
  harq_proc.state h <> tb_t.empty ->
  harq_proc.ack_info 0 ack h =
  Some (to_int (if ack then harq_proc.tbs h else 0), acked ack h).
Proof.
  intros Hs. apply empty_false in Hs.
  unfold harq_proc.ack_info. simpl. rewrite Hs.
  destruct ack; reflexivity.
Qed.

Lemma new_slot_reached slot_rx h :
  harq_proc.state h <> tb_t.empty ->
  slot_lt slot_rx (harq_proc.slot_ack h) = false ->
  harq_proc.new_slot slot_rx h =
  harq_proc.discard_check (harq_proc.implicit_nack h).
Proof.
  intros Hs Hr. apply empty_false in Hs.
  unfold harq_proc.new_slot. rewrite Hs, Hr. reflexivity.
Qed.

Lemma implicit_nack_counters h :
  harq_proc.nof_retx (harq_proc.implicit_nack h) = harq_proc.nof_retx h /\
  harq_proc.max_nof_retx (harq_proc.implicit_nack h) = harq_proc.max_nof_retx h.
Proof.
  unfold harq_proc.implicit_nack.
  destruct (tb_t.state_eqb (harq_proc.state h) tb_t.waiting_ack); split; reflexivity.
Qed.

Lemma implicit_nack_state h :
  harq_proc.state h <> tb_t.empty ->
  harq_proc.state (harq_proc.implicit_nack h) = tb_t.pending_retx.
Proof.
  unfold harq_proc.implicit_nack.
  destruct (harq_proc.state h) eqn:Hs; simpl; intros Hne;
    [congruence | exact Hs | reflexivity].
Qed.

(** After a reached ack slot a process that was not empty is either emptied
    (the count would exceed the maximum) or pending. *)
Lemma new_slot_reached_state slot_rx h :
  harq_proc.state h <> tb_t.empty ->
  slot_lt slot_rx (harq_proc.slot_ack h) = false ->
  harq_proc.state (harq_proc.new_slot slot_rx h) =
  if harq_proc.max_nof_retx h <? wrap32 (harq_proc.nof_retx h + 1)
  then tb_t.empty else tb_t.pending_retx.
Proof.
  intros Hs Hr. rewrite new_slot_reached by assumption.
  unfold harq_proc.discard_check.
  destruct (implicit_nack_counters h) as [En Em]. rewrite En, Em.
  destruct (harq_proc.max_nof_retx h <? wrap32 (harq_proc.nof_retx h + 1)).
  - reflexivity.
  - apply implicit_nack_state. exact Hs.
Qed.

(** C2 (as amended): in a [new_slot] call on a process that is not empty and
    whose ack slot is reached, the discard check runs after the implicit NACK
    (which leaves a process that was waiting for its ACK pending), so that a
    process waiting for its ACK whose retransmission count has reached the
    maximum and is below 2^32 - 1 (more generally, one for which the 32-bit
    sum [nof_retx + 1] exceeds the maximum) goes all the way to empty within
    that call; otherwise it ends pending. *)
Theorem new_slot_discard_after_nack slot_rx h :
  harq_proc.state h <> tb_t.empty ->
  slot_lt slot_rx (harq_proc.slot_ack h) = false ->
  harq_proc.new_slot slot_rx h
    = harq_proc.discard_check (harq_proc.implicit_nack h) /\
  (harq_proc.state h = tb_t.waiting_ack ->
   harq_proc.state (harq_proc.implicit_nack h) = tb_t.pending_retx) /\
  (harq_proc.state h = tb_t.waiting_ack ->
   harq_proc.max_nof_retx h < wrap32 (harq_proc.nof_retx h + 1) ->
   harq_proc.state (harq_proc.new_slot slot_rx h) = tb_t.empty) /\
  (harq_proc.state h = tb_t.waiting_ack ->
   0 <= harq_proc.nof_retx h < UINT32_MAX ->
   harq_proc.max_nof_retx h <= harq_proc.nof_retx h ->
   harq_proc.state (harq_proc.new_slot slot_rx h) = tb_t.empty) /\
  (harq_proc.max_nof_retx h >= wrap32 (harq_proc.nof_retx h + 1) ->
   harq_proc.state (harq_proc.new_slot slot_rx h) = tb_t.pending_retx).
Proof.
  intros Hs Hr. split; [apply new_slot_reached; assumption|].
  split; [intros _; apply implicit_nack_state; exact Hs|].
  rewrite new_slot_reached_state by assumption.
  split; [|split].
  - intros _ Hlt. apply Z.ltb_lt in Hlt. rewrite Hlt. reflexivity.
  - intros _ Hn Hm. unfold UINT32_MAX in Hn.
    rewrite wrap32_small by lia.
    destruct (Z.ltb_spec (harq_proc.max_nof_retx h) (harq_proc.nof_retx h + 1));
      [reflexivity|lia].
  - intros Hge.
    destruct (Z.ltb_spec (harq_proc.max_nof_retx h)
                (wrap32 (harq_proc.nof_retx h + 1))); [lia|reflexivity].
Qed.

(** C3: [new_tx] succeeds exactly on an empty process; after a success the
    process waits for its ACK and its new-data indicator is the negation of
    the one before the call, which is the one the previous successful
    [new_tx] left, whatever was called in between. *)
Theorem new_tx_iff_empty slot_tx_ slot_ack_ g mcs_ max_retx_ h :
  let r := harq_proc.new_tx slot_tx_ slot_ack_ g mcs_ max_retx_ h in
  (fst r = true <-> harq_proc.state h = tb_t.empty) /\
  (fst r = true ->
   harq_proc.state (snd r) = tb_t.waiting_ack /\
   harq_proc.ndi (snd r) = negb (harq_proc.ndi h)) /\
  (forall h_prev k, fst r = true -> lifecycle h_prev k h ->
   harq_proc.ndi (snd r) = negb (harq_proc.ndi h_prev)).
Proof.
  simpl. destruct (harq_proc.state h) eqn:Hs.
  - rewrite new_tx_ok by assumption. simpl.
    split; [tauto|]. split; [auto|].
    intros h_prev k _ Hl.
    apply lifecycle_inv in Hl. destruct Hl as (_ & _ & _ & Hn & _).
    rewrite <- Hn. reflexivity.
  - rewrite new_tx_fail by congruence. simpl.
    split; [split; discriminate|]. split; discriminate.
  - rewrite new_tx_fail by congruence. simpl.
    split; [split; discriminate|]. split; discriminate.
Qed.

(** C4 (as amended): [ack_info] on an empty process returns -1 and changes
    nothing.  On a process that is not empty, a positive ACK empties the
    process and returns its transport block size converted to [int], which is
    that size whenever it is below 2^31; a negative ACK leaves the process
    pending and returns 0.  In both cases only the state and the ack flag
    change. *)
Theorem ack_info_result h :
  (harq_proc.state h = tb_t.empty ->
   forall ack, harq_proc.ack_info 0 ack h = Some (-1, h)) /\
  (harq_proc.state h <> tb_t.empty ->
   harq_proc.ack_info 0 true h = Some (to_int (harq_proc.tbs h), acked true h) /\
   harq_proc.state (acked true h) = tb_t.empty /\
   (harq_proc.tbs h < 2147483648 ->
    harq_proc.ack_info 0 true h = Some (harq_proc.tbs h, acked true h)) /\
   harq_proc.ack_info 0 false h = Some (0, acked false h) /\
   harq_proc.state (acked false h) = tb_t.pending_retx).
Proof.
  split.
  - intros Hs ack. apply empty_true in Hs.
    unfold harq_proc.ack_info. simpl. rewrite Hs. reflexivity.
  - intros Hs. repeat split.
    + apply (ack_info_nonempty true h Hs).
    + intros Hlt. rewrite (ack_info_nonempty true h Hs).
      simpl. rewrite to_int_small by assumption. reflexivity.
    + apply (ack_info_nonempty false h Hs).
Qed.

(** C5: [new_slot] leaves an empty process as it is (and is idempotent
    there); it leaves a process that waits for its ACK as it is while the ack
    slot is not reached; so it never empties a waiting process before its ack
    slot. *)
Theorem new_slot_noop slot_rx h :
  (harq_proc.state h = tb_t.empty ->
   harq_proc.new_slot slot_rx h = h /\
   harq_proc.new_slot slot_rx (harq_proc.new_slot slot_rx h)
     = harq_proc.new_slot slot_rx h) /\
  (harq_proc.state h = tb_t.waiting_ack ->
   slot_lt slot_rx (harq_proc.slot_ack h) = true ->
   harq_proc.new_slot slot_rx h = h) /\
  (harq_proc.state h = tb_t.waiting_ack ->
   harq_proc.state (harq_proc.new_slot slot_rx h) = tb_t.empty ->
   slot_lt slot_rx (harq_proc.slot_ack h) = false).
Proof.
  split; [|split].
  - intros Hs. rewrite (new_slot_empty slot_rx h Hs).
    split; [reflexivity|]. exact (new_slot_empty slot_rx h Hs).
  - intros _ Hr. exact (new_slot_early slot_rx h Hr).
  - intros Hs Hn.
    destruct (slot_lt slot_rx (harq_proc.slot_ack h)) eqn:Hr; [|reflexivity].
    rewrite (new_slot_early slot_rx h Hr) in Hn. congruence.
Qed.

End HarqClaims.

(** ** Retransmissions *)

Section Retransmissions.
Context {slot_point : Type} `{SlotPoint slot_point}.
Implicit Types (h : harq_proc.t slot_point) (g : prb_grant.t).
Implicit Types (o : harq_op slot_point).

(** What the lifecycle of a new transmission keeps of it. *)
Lemma lifecycle_of_new_tx slot_tx_ slot_ack_ g0 mcs_ max_retx_ h0 h1 k h :
  harq_proc.new_tx slot_tx_ slot_ack_ g0 mcs_ max_retx_ h0 = (true, h1) ->
  lifecycle h1 k h ->
  0 <= k /\
  harq_proc.max_retx h = max_retx_ /\
  harq_proc.ndi h = negb (harq_proc.ndi h0) /\
  shape_of (harq_proc.prbs_ h) = shape_of g0 /\
  harq_proc.nof_retx h = wrap32 k.
Proof.
  intros Hn Hl. apply new_tx_inv in Hn. destruct Hn as [_ ->].
  apply lifecycle_inv in Hl. simpl in Hl.
  destruct Hl as (Hk & _ & Hm & Hi & Hg & Hc).
  repeat split; try assumption.
  apply Hc. unfold uint32, UINT32_MAX, harq_proc.nof_retx. simpl. lia.
Qed.

(** Retransmitting after a negative ACK, any number of times. *)
Lemma nack_retx_rounds h1 :
  harq_proc.state h1 = tb_t.waiting_ack ->
  tb_t.ack_state (harq_proc.tb h1) = false ->
  harq_proc.nof_retx h1 = 0 ->
  forall n, 0 <= n -> lifecycle h1 n (retx_state h1 n).
Proof.
  intros Hs Ha Hc.
  apply natlike_ind.
  - replace (retx_state h1 0) with h1; [constructor|].
    destruct h1 as [p m st sa gr [s a i c mc tb]].
    unfold harq_proc.state, harq_proc.nof_retx in *. simpl in *. subst.
    reflexivity.
  - intros n Hn IH.
    set (h2 := acked false (retx_state h1 n)).
    assert (E1 : exec (op_ack_info false) (retx_state h1 n) = (true, h2)).
    { unfold exec. rewrite ack_info_nonempty by discriminate. reflexivity. }
    assert (E2 : harq_proc.new_retx (harq_proc.slot_tx h1) (harq_proc.slot_ack h1) h2
                 = (true, retx_state h1 (n + 1))).
    { rewrite new_retx_ok by reflexivity.
      unfold h2, acked, retx_state, harq_proc.nof_retx. cbn.
      rewrite wrap32_succ_wrap. reflexivity. }
    pose proof (lifecycle_step h1 _ _ (op_ack_info false) IH) as L1.
    unfold retx_done in L1. rewrite E1 in L1.
    cbn [is_retx andb snd] in L1. rewrite Z.add_0_r in L1.
    pose proof (lifecycle_step h1 _ _
                  (op_new_retx (harq_proc.slot_tx h1) (harq_proc.slot_ack h1)) L1)
      as L2.
    unfold retx_done in L2. cbn [exec is_retx] in L2. rewrite E2 in L2.
    cbn [andb fst snd] in L2.
    replace (Z.succ n) with (n + 1) by lia. exact L2.
Qed.

Lemma retx_limit_reached slot_tx_ slot_ack_ g0 mcs_ max_retx_ h0 h1 h slot_rx :
  harq_proc.new_tx slot_tx_ slot_ack_ g0 mcs_ max_retx_ h0 = (true, h1) ->
  0 <= max_retx_ < UINT32_MAX ->
  lifecycle h1 max_retx_ h ->
  slot_lt slot_rx (harq_proc.slot_ack h) = false ->
  harq_proc.state (harq_proc.new_slot slot_rx h) = tb_t.empty.
Proof.
  intros Hn Hm Hl Hr.
  destruct (lifecycle_of_new_tx _ _ _ _ _ _ _ _ _ Hn Hl) as (_ & Em & _ & _ & Ec).
  destruct (harq_proc.state h) eqn:Hs.
  - rewrite new_slot_empty by assumption. exact Hs.
  - rewrite new_slot_reached_state by (assumption || congruence).
    unfold harq_proc.max_nof_retx. rewrite Em, Ec.
    unfold UINT32_MAX in Hm.
    rewrite (wrap32_small max_retx_), (wrap32_small (max_retx_ + 1)) by lia.
    destruct (Z.ltb_spec max_retx_ (max_retx_ + 1)); [reflexivity|lia].
  - rewrite new_slot_reached_state by (assumption || congruence).
    unfold harq_proc.max_nof_retx. rewrite Em, Ec.
    unfold UINT32_MAX in Hm.
    rewrite (wrap32_small max_retx_), (wrap32_small (max_retx_ + 1)) by lia.
    destruct (Z.ltb_spec max_retx_ (max_retx_ + 1)); [reflexivity|lia].
Qed.

Lemma retx_limit_not_reached slot_tx_ slot_ack_ g0 mcs_ max_retx_ h0 h1 k h slot_rx :
  harq_proc.new_tx slot_tx_ slot_ack_ g0 mcs_ max_retx_ h0 = (true, h1) ->
  k < max_retx_ <= UINT32_MAX ->
  lifecycle h1 k h ->
  harq_proc.state h = tb_t.waiting_ack ->
  slot_lt slot_rx (harq_proc.slot_ack h) = false ->
  harq_proc.state (harq_proc.new_slot slot_rx h) = tb_t.pending_retx.
Proof.
  intros Hn Hm Hl Hs Hr.
  destruct (lifecycle_of_new_tx _ _ _ _ _ _ _ _ _ Hn Hl) as (Hk & Em & _ & _ & Ec).
  rewrite new_slot_reached_state by (assumption || congruence).
  unfold harq_proc.max_nof_retx. rewrite Em, Ec.
  unfold UINT32_MAX in Hm.
  rewrite (wrap32_small k), (wrap32_small (k + 1)) by lia.
  destruct (Z.ltb_spec max_retx_ (k + 1)); [lia|reflexivity].
Qed.

End Retransmissions.

(** ** The scheduler without feedback *)

Lemma slots_of_app e l1 l2 : slots_of e (l1 ++ l2) = slots_of e l1 ++ slots_of e l2.
Proof. unfold slots_of. rewrite filter_app, map_app. reflexivity. Qed.

Lemma no_feedback_slot_empty k1 s (h : harq_proc.t Z) :
  harq_proc.state h = tb_t.empty -> no_feedback_slot k1 s h = (ev_none, h).
Proof.
  intros Hs. unfold no_feedback_slot.
  rewrite new_slot_empty by assumption.
  rewrite (proj2 (empty_true h) Hs). simpl.
  rewrite new_retx_fail by congruence. reflexivity.
Qed.

Lemma no_feedback_run_empty k1 n : forall s (h : harq_proc.t Z),
  harq_proc.state h = tb_t.empty ->
  slots_of ev_nack_retx (fst (no_feedback_run k1 n s h)) = [] /\
  slots_of ev_discard (fst (no_feedback_run k1 n s h)) = [] /\
  snd (no_feedback_run k1 n s h) = h.
Proof.
  induction n as [|n IH]; intros s h Hs; simpl.
  - auto.
  - rewrite no_feedback_slot_empty by assumption.
    destruct (IH (s + 1) h Hs) as (I1 & I2 & I3).
    destruct (no_feedback_run k1 n (s + 1) h) as [log h2]. simpl in *.
    auto.
Qed.

Lemma no_feedback_run_app k1 n m : forall s (h : harq_proc.t Z),
  no_feedback_run k1 (n + m) s h =
  (fst (no_feedback_run k1 n s h)
     ++ fst (no_feedback_run k1 m (s + Z.of_nat n) (snd (no_feedback_run k1 n s h))),
   snd (no_feedback_run k1 m (s + Z.of_nat n) (snd (no_feedback_run k1 n s h)))).
Proof.
  induction n as [|n IH]; intros s h.
  - simpl. rewrite Z.add_0_r.
    destruct (no_feedback_run k1 m s h); reflexivity.
  - cbn [Nat.add no_feedback_run].
    destruct (no_feedback_slot k1 s h) as [e h1].
    rewrite IH.
    replace (s + Z.of_nat (S n)) with (s + 1 + Z.of_nat n) by lia.
    destruct (no_feedback_run k1 n (s + 1) h1) as [l1 h2]. simpl.
    reflexivity.
Qed.

(** Scenario A, for any number of slots from slot 30 on. *)
Lemma scenario_no_feedback g mcs_ (n : nat) :
  (17 <= n)%nat ->
  let h1 := snd (harq_proc.new_tx 10 14 g mcs_ 4 (fresh_harq 0 0)) in
  let r := no_feedback_run 4 n 14 h1 in
  slots_of ev_nack_retx (fst r) = [14; 18; 22; 26] /\
  slots_of ev_discard (fst r) = [30] /\
  harq_proc.state (snd r) = tb_t.empty /\
  harq_proc.state (snd (no_feedback_run 4 16 14 h1)) = tb_t.waiting_ack.
Proof.
  intros Hn h1 r.
  set (r17 := no_feedback_run 4 17 14 h1).
  assert (E : slots_of ev_nack_retx (fst r17) = [14; 18; 22; 26] /\
              slots_of ev_discard (fst r17) = [30] /\
              harq_proc.state (snd r17) = tb_t.empty).
  { vm_compute. auto. }
  destruct E as (E1 & E2 & E3).
  destruct (no_feedback_run_empty 4 (n - 17) (14 + Z.of_nat 17) (snd r17) E3)
    as (R1 & R2 & R3).
  assert (Er : r = (fst r17 ++ fst (no_feedback_run 4 (n - 17) (14 + Z.of_nat 17)
                                      (snd r17)),
                    snd (no_feedback_run 4 (n - 17) (14 + Z.of_nat 17) (snd r17)))).
  { unfold r, r17. rewrite <- no_feedback_run_app. f_equal. lia. }
  rewrite Er. cbn [fst snd].
  rewrite !slots_of_app, R1, R2, R3, E1, E2, E3.
  repeat split; reflexivity.
Qed.

(** C1 (as amended): for a retransmission budget [max_retx] below 2^32 - 1
    given by [new_tx], once the process has been retransmitted exactly
    [max_retx] times, a [new_slot] call at or after the expected ack slot
    leaves it empty; with fewer retransmissions such a call leaves a process
    that waits for its ACK pending.  With [max_retx = 4], a [new_tx] at slot
    10 with ack slot 14 and no feedback, the process is retransmitted after
    an implicit NACK exactly four times (slots 14, 18, 22, 26) and is
    discarded at slot 30, not before. *)
Theorem retx_limit_discard :
  (forall (slot_point : Type) (S : SlotPoint slot_point)
          (slot_tx_ slot_ack_ : slot_point) g0 mcs_ max_retx_
          (h0 h1 : harq_proc.t slot_point),
     harq_proc.new_tx slot_tx_ slot_ack_ g0 mcs_ max_retx_ h0 = (true, h1) ->
     (forall h slot_rx,
        0 <= max_retx_ < UINT32_MAX ->
        lifecycle h1 max_retx_ h ->
        slot_lt slot_rx (harq_proc.slot_ack h) = false ->
        harq_proc.state (harq_proc.new_slot slot_rx h) = tb_t.empty) /\
     (forall k h slot_rx,
        k < max_retx_ <= UINT32_MAX ->
        lifecycle h1 k h ->
        harq_proc.state h = tb_t.waiting_ack ->
        slot_lt slot_rx (harq_proc.slot_ack h) = false ->
        harq_proc.state (harq_proc.new_slot slot_rx h) = tb_t.pending_retx)) /\
  (forall g mcs_ (n : nat),
     (17 <= n)%nat ->
     let h1 := snd (harq_proc.new_tx 10 14 g mcs_ 4 (fresh_harq 0 0)) in
     let r := no_feedback_run 4 n 14 h1 in
     slots_of ev_nack_retx (fst r) = [14; 18; 22; 26] /\
     slots_of ev_discard (fst r) = [30] /\
     harq_proc.state (snd r) = tb_t.empty /\
     harq_proc.state (snd (no_feedback_run 4 16 14 h1)) = tb_t.waiting_ack).
Proof.
  split.
  - intros slot_point S slot_tx_ slot_ack_ g0 mcs_ max_retx_ h0 h1 Hn. split.
    + intros h slot_rx Hm Hl Hr.
      exact (retx_limit_reached _ _ _ _ _ _ _ _ _ Hn Hm Hl Hr).
    + intros k h slot_rx Hm Hl Hs Hr.
      exact (retx_limit_not_reached _ _ _ _ _ _ _ _ _ _ Hn Hm Hl Hs Hr).
  - exact scenario_no_feedback.
Qed.

Lemma example_tx_ok max_retx_ :
  harq_proc.new_tx 10 14 example_grant 5 max_retx_ (fresh_harq 0 0)
  = (true, example_tx max_retx_).
Proof. reflexivity. Qed.

Lemma retx_limit_discard_witness :
  harq_proc.state (harq_proc.new_slot 14 (retx_state (example_tx 4) 4)) = tb_t.empty.
Proof.
  apply (proj1 (proj1 retx_limit_discard Z Z_slot 10 14 example_grant 5 4
                  (fresh_harq 0 0) (example_tx 4) (example_tx_ok 4))).
  - unfold UINT32_MAX. lia.
  - apply nack_retx_rounds; [reflexivity | reflexivity | reflexivity | lia].
  - reflexivity.
Defined.

(** C1, as stated, fails for the budget 2^32 - 1: after that many
    retransmissions the count wraps in the discard check and the process is
    left pending. *)
Lemma retx_limit_counterexample :
  exists h : harq_proc.t Z,
    lifecycle (example_tx UINT32_MAX) UINT32_MAX h /\
    harq_proc.state h = tb_t.waiting_ack /\
    slot_lt 14 (harq_proc.slot_ack h) = false /\
    harq_proc.state (harq_proc.new_slot 14 h) = tb_t.pending_retx /\
    harq_proc.state (harq_proc.new_slot 14 h) <> tb_t.empty.
Proof.
  exists (retx_state (example_tx UINT32_MAX) UINT32_MAX).
  split.
  - apply nack_retx_rounds; try reflexivity. unfold UINT32_MAX. lia.
  - repeat split; try reflexivity. discriminate.
Qed.

(** ** Retransmission grants *)

(** C6: once a transmission was started with grant [g0], a retransmission
    asked for a pending process with a grant whose shape differs from that of
    [g0] (other allocation type, other number of RBGs, other contiguous
    length) fails and leaves the whole process as it was; so do the DL and UL
    wrappers, which leave the DCI untouched as well. *)
Theorem new_retx_shape_mismatch {slot_point : Type} `{SlotPoint slot_point}
    (slot_tx_ slot_ack_ : slot_point) g0 mcs_ max_retx_
    (h0 h1 h : harq_proc.t slot_point) k (slot_tx' slot_ack' : slot_point) g :
  harq_proc.new_tx slot_tx_ slot_ack_ g0 mcs_ max_retx_ h0 = (true, h1) ->
  lifecycle h1 k h ->
  harq_proc.state h = tb_t.pending_retx ->
  shape_of g <> shape_of g0 ->
  harq_proc.new_retx_grant slot_tx' slot_ack' g h = (false, h) /\
  (forall pdu dci,
     dl_harq_proc.new_retx slot_tx' slot_ack' g (dl_harq_proc.mk h pdu) dci
     = (false, dl_harq_proc.mk h pdu, dci)) /\
  (forall dci, ul_harq_proc.new_retx slot_tx' g h dci = (false, h, dci)).
Proof.
  intros Hn Hl Hs Hg.
  destruct (lifecycle_of_new_tx _ _ _ _ _ _ _ _ _ Hn Hl) as (_ & _ & _ & Eg & _).
  assert (Hm : harq_proc.grant_mismatch g (harq_proc.prbs_ h) = true).
  { destruct (harq_proc.grant_mismatch g (harq_proc.prbs_ h)) eqn:Hm;
      [reflexivity|].
    apply grant_mismatch_shape in Hm. congruence. }
  assert (Hf : forall s a, harq_proc.new_retx_grant s a g h = (false, h)).
  { intros s a. unfold harq_proc.new_retx_grant. rewrite Hm. reflexivity. }
  split; [apply Hf|]. split.
  - intros pdu dci. unfold dl_harq_proc.new_retx. simpl. rewrite Hf. reflexivity.
  - intros dci. unfold ul_harq_proc.new_retx. rewrite Hf. reflexivity.
Qed.

Lemma new_retx_shape_mismatch_witness :
  harq_proc.new_retx_grant 15 19 (prb_grant.alloc_type1 (prb_interval.mk 0 12))
    (acked false (example_tx 4))
  = (false, acked false (example_tx 4)).
Proof.
  apply (proj1 (new_retx_shape_mismatch 10 14 example_grant 5 4 (fresh_harq 0 0)
                  (example_tx 4) (acked false (example_tx 4)) 0 15 19
                  (prb_grant.alloc_type1 (prb_interval.mk 0 12))
                  (example_tx_ok 4)
                  (lifecycle_step (example_tx 4) 0 (example_tx 4)
                     (op_ack_info false) (lifecycle_start (example_tx 4)))
                  eq_refl
                  ltac:(discriminate))).
Defined.

(** ** Redundancy versions and new-data indicators in the DCI *)

Section Dci.
Context {slot_point : Type} `{SlotPoint slot_point}.
Implicit Types (h : harq_proc.t slot_point) (g : prb_grant.t).
Implicit Types (o : harq_op slot_point).

Lemma rv_of_cycle (n : Z) : rv_of (wrap32 n) = rv_of n.
Proof. unfold rv_of. rewrite wrap32_mod4. reflexivity. Qed.

Lemma dl_new_tx_inv slot_tx_ slot_ack_ g mcs_ max_retx_
    (d d' : dl_harq_proc.t slot_point) dci dci' :
  dl_harq_proc.new_tx slot_tx_ slot_ack_ g mcs_ max_retx_ d dci = (true, d', dci') ->
  harq_proc.new_tx slot_tx_ slot_ack_ g mcs_ max_retx_ (dl_harq_proc.base d)
    = (true, dl_harq_proc.base d') /\
  dl_harq_proc.pdu d' = [] /\
  dci' = dl_harq_proc.fill_dci d' dci.
Proof.
  unfold dl_harq_proc.new_tx.
  destruct (harq_proc.new_tx slot_tx_ slot_ack_ g mcs_ max_retx_
              (dl_harq_proc.base d)) as [[|] b]; intros E; inversion E; subst.
  simpl. auto.
Qed.

Lemma dl_new_retx_inv slot_tx_ slot_ack_ g
    (d d' : dl_harq_proc.t slot_point) dci dci' :
  dl_harq_proc.new_retx slot_tx_ slot_ack_ g d dci = (true, d', dci') ->
  harq_proc.new_retx_grant slot_tx_ slot_ack_ g (dl_harq_proc.base d)
    = (true, dl_harq_proc.base d') /\
  dl_harq_proc.pdu d' = dl_harq_proc.pdu d /\
  dci' = dl_harq_proc.fill_dci d' dci.
Proof.
  unfold dl_harq_proc.new_retx.
  destruct (harq_proc.new_retx_grant slot_tx_ slot_ack_ g
              (dl_harq_proc.base d)) as [[|] b]; intros E; inversion E; subst.
  simpl. auto.
Qed.

Lemma ul_new_tx_inv slot_tx_ g mcs_ max_retx_ h h' dci dci' :
  ul_harq_proc.new_tx slot_tx_ g mcs_ max_retx_ h dci = (true, h', dci') ->
  harq_proc.new_tx slot_tx_ slot_tx_ g mcs_ max_retx_ h = (true, h') /\
  dci' = ul_harq_proc.fill_dci h' dci.
Proof.
  unfold ul_harq_proc.new_tx.
  destruct (harq_proc.new_tx slot_tx_ slot_tx_ g mcs_ max_retx_ h) as [[|] b];
    intros E; inversion E; subst.
  auto.
Qed.

Lemma ul_new_retx_inv slot_tx_ g h h' dci dci' :
  ul_harq_proc.new_retx slot_tx_ g h dci = (true, h', dci') ->
  harq_proc.new_retx_grant slot_tx_ slot_tx_ g h = (true, h') /\
  dci' = ul_harq_proc.fill_dci h' dci.
Proof.
  unfold ul_harq_proc.new_retx.
  destruct (harq_proc.new_retx_grant slot_tx_ slot_tx_ g h) as [[|] b];
    intros E; inversion E; subst.
  auto.
Qed.

(** A successful retransmission with a grant. *)
Lemma new_retx_grant_inv slot_tx_ slot_ack_ g h h' :
  harq_proc.new_retx_grant slot_tx_ slot_ack_ g h = (true, h') ->
  harq_proc.state h = tb_t.pending_retx /\
  shape_of g = shape_of (harq_proc.prbs_ h) /\
  h' = harq_proc.with_prbs g (snd (harq_proc.new_retx slot_tx_ slot_ack_ h)).
Proof.
  unfold harq_proc.new_retx_grant.
  destruct (harq_proc.grant_mismatch g (harq_proc.prbs_ h)) eqn:Hm;
    [discriminate|].
  apply grant_mismatch_shape in Hm.
  destruct (new_retx_cases slot_tx_ slot_ack_ h) as [[Hs Hok]|[Hs Hf]].
  - rewrite new_retx_ok in * by assumption. simpl.
    intros E. inversion E. auto.
  - rewrite Hf. discriminate.
Qed.

Lemma new_retx_grant_ok slot_tx_ slot_ack_ g h :
  harq_proc.state h = tb_t.pending_retx ->
  shape_of g = shape_of (harq_proc.prbs_ h) ->
  harq_proc.new_retx_grant slot_tx_ slot_ack_ g h =
  (true, harq_proc.with_prbs g (snd (harq_proc.new_retx slot_tx_ slot_ack_ h))).
Proof.
  intros Hs Hg. apply grant_mismatch_shape in Hg.
  unfold harq_proc.new_retx_grant. rewrite Hg.
  rewrite new_retx_ok by assumption. reflexivity.
Qed.

End Dci.

(** C8: the redundancy version that [new_tx] and [new_retx] write into the
    DCI, for DL and for UL processes, is the entry of the schedule 0, 2, 3, 1
    at the position given by the retransmission count of the process modulo
    4.  A new transmission on an empty process succeeds and writes 0; a
    retransmission of a pending process with a grant of the stored shape
    succeeds, counts one more retransmission and writes the entry of the new
    count; the retransmission that follows [k] earlier ones writes the entry
    at position [(k + 1) mod 4].  Whenever a wrapper returns true, the DCI it
    returns carries the entry of the count of the process it returns. *)
Theorem fill_dci_rv {slot_point : Type} `{SlotPoint slot_point} :
  (forall (slot_tx_ slot_ack_ : slot_point) g mcs_ max_retx_
          (d : dl_harq_proc.t slot_point) dci,
     harq_proc.state (dl_harq_proc.base d) = tb_t.empty ->
     let res := dl_harq_proc.new_tx slot_tx_ slot_ack_ g mcs_ max_retx_ d dci in
     fst (fst res) = true /\
     dl_rv (snd res) = 0 /\
     dl_rv (snd res)
       = nth (Z.to_nat (harq_proc.nof_retx (dl_harq_proc.base (snd (fst res)))
                        mod 4))
             [0; 2; 3; 1] 0) /\
  (forall (slot_tx_ : slot_point) g mcs_ max_retx_
          (h : harq_proc.t slot_point) dci,
     harq_proc.state h = tb_t.empty ->
     let res := ul_harq_proc.new_tx slot_tx_ g mcs_ max_retx_ h dci in
     fst (fst res) = true /\
     ul_rv (snd res) = 0 /\
     ul_rv (snd res)
       = nth (Z.to_nat (harq_proc.nof_retx (snd (fst res)) mod 4))
             [0; 2; 3; 1] 0) /\
  (forall (slot_tx_ slot_ack_ : slot_point) g
          (d : dl_harq_proc.t slot_point) dci,
     harq_proc.state (dl_harq_proc.base d) = tb_t.pending_retx ->
     shape_of g = shape_of (harq_proc.prbs_ (dl_harq_proc.base d)) ->
     let res := dl_harq_proc.new_retx slot_tx_ slot_ack_ g d dci in
     fst (fst res) = true /\
     harq_proc.nof_retx (dl_harq_proc.base (snd (fst res)))
       = wrap32 (harq_proc.nof_retx (dl_harq_proc.base d) + 1) /\
     dl_rv (snd res)
       = nth (Z.to_nat (harq_proc.nof_retx (dl_harq_proc.base (snd (fst res)))
                        mod 4))
             [0; 2; 3; 1] 0) /\
  (forall (slot_tx_ : slot_point) g (h : harq_proc.t slot_point) dci,
     harq_proc.state h = tb_t.pending_retx ->
     shape_of g = shape_of (harq_proc.prbs_ h) ->
     let res := ul_harq_proc.new_retx slot_tx_ g h dci in
     fst (fst res) = true /\
     harq_proc.nof_retx (snd (fst res)) = wrap32 (harq_proc.nof_retx h + 1) /\
     ul_rv (snd res)
       = nth (Z.to_nat (harq_proc.nof_retx (snd (fst res)) mod 4))
             [0; 2; 3; 1] 0) /\
  (forall (slot_tx_ slot_ack_ s a : slot_point) g0 g mcs_ max_retx_
          (h0 h1 h : harq_proc.t slot_point) k,
     harq_proc.new_tx slot_tx_ slot_ack_ g0 mcs_ max_retx_ h0 = (true, h1) ->
     lifecycle h1 k h ->
     harq_proc.state h = tb_t.pending_retx ->
     shape_of g = shape_of (harq_proc.prbs_ h) ->
     let rv := nth (Z.to_nat ((k + 1) mod 4)) [0; 2; 3; 1] 0 in
     (forall pdu dci,
        let res := dl_harq_proc.new_retx s a g (dl_harq_proc.mk h pdu) dci in
        fst (fst res) = true /\ dl_rv (snd res) = rv) /\
     (forall dci,
        let res := ul_harq_proc.new_retx s g h dci in
        fst (fst res) = true /\ ul_rv (snd res) = rv)) /\
  (forall (slot_tx_ slot_ack_ : slot_point) g mcs_ max_retx_ d d' dci dci',
     dl_harq_proc.new_tx slot_tx_ slot_ack_ g mcs_ max_retx_ d dci
       = (true, d', dci') ->
     dl_rv dci'
       = nth (Z.to_nat (harq_proc.nof_retx (dl_harq_proc.base d') mod 4))
             [0; 2; 3; 1] 0 /\
     dl_rv dci' = 0) /\
  (forall (slot_tx_ slot_ack_ : slot_point) g d d' dci dci',
     dl_harq_proc.new_retx slot_tx_ slot_ack_ g d dci = (true, d', dci') ->
     dl_rv dci'
       = nth (Z.to_nat (harq_proc.nof_retx (dl_harq_proc.base d') mod 4))
             [0; 2; 3; 1] 0) /\
  (forall (slot_tx_ : slot_point) g mcs_ max_retx_ h h' dci dci',
     ul_harq_proc.new_tx slot_tx_ g mcs_ max_retx_ h dci = (true, h', dci') ->
     ul_rv dci' = nth (Z.to_nat (harq_proc.nof_retx h' mod 4)) [0; 2; 3; 1] 0 /\
     ul_rv dci' = 0) /\
  (forall (slot_tx_ : slot_point) g h h' dci dci',
     ul_harq_proc.new_retx slot_tx_ g h dci = (true, h', dci') ->
     ul_rv dci' = nth (Z.to_nat (harq_proc.nof_retx h' mod 4)) [0; 2; 3; 1] 0).
Proof.
  assert (Rdl : forall (s a : slot_point) g (d : dl_harq_proc.t slot_point) dci,
            harq_proc.state (dl_harq_proc.base d) = tb_t.pending_retx ->
            shape_of g = shape_of (harq_proc.prbs_ (dl_harq_proc.base d)) ->
            let res := dl_harq_proc.new_retx s a g d dci in
            fst (fst res) = true /\
            harq_proc.nof_retx (dl_harq_proc.base (snd (fst res)))
              = wrap32 (harq_proc.nof_retx (dl_harq_proc.base d) + 1) /\
            dl_rv (snd res)
              = rv_of (wrap32 (harq_proc.nof_retx (dl_harq_proc.base d) + 1))).
  { intros s a g d dci Hs Hg. unfold dl_harq_proc.new_retx.
    rewrite new_retx_grant_ok by assumption.
    rewrite new_retx_ok by assumption.
    repeat split; reflexivity. }
  assert (Rul : forall (s : slot_point) g (h : harq_proc.t slot_point) dci,
            harq_proc.state h = tb_t.pending_retx ->
            shape_of g = shape_of (harq_proc.prbs_ h) ->
            let res := ul_harq_proc.new_retx s g h dci in
            fst (fst res) = true /\
            harq_proc.nof_retx (snd (fst res)) = wrap32 (harq_proc.nof_retx h + 1) /\
            ul_rv (snd res) = rv_of (wrap32 (harq_proc.nof_retx h + 1))).
  { intros s g h dci Hs Hg. unfold ul_harq_proc.new_retx.
    rewrite new_retx_grant_ok by assumption.
    rewrite new_retx_ok by assumption.
    repeat split; reflexivity. }
  split; [|split; [|split; [|split; [|split; [|split; [|split; [|split]]]]]]].
  - intros slot_tx_ slot_ack_ g mcs_ max_retx_ d dci Hs.
    unfold dl_harq_proc.new_tx. rewrite new_tx_ok by assumption.
    repeat split; reflexivity.
  - intros slot_tx_ g mcs_ max_retx_ h dci Hs.
    unfold ul_harq_proc.new_tx. rewrite new_tx_ok by assumption.
    repeat split; reflexivity.
  - intros slot_tx_ slot_ack_ g d dci Hs Hg.
    destruct (Rdl slot_tx_ slot_ack_ g d dci Hs Hg) as (R1 & R2 & R3).
    cbv zeta. rewrite R2. repeat split; assumption.
  - intros slot_tx_ g h dci Hs Hg.
    destruct (Rul slot_tx_ g h dci Hs Hg) as (R1 & R2 & R3).
    cbv zeta. rewrite R2. repeat split; assumption.
  - intros slot_tx_ slot_ack_ s a g0 g mcs_ max_retx_ h0 h1 h k Hn Hl Hs Hg rv.
    pose proof (lifecycle_of_new_tx _ _ _ _ _ _ _ _ _ Hn Hl) as (_ & _ & _ & _ & Ec).
    assert (Erv : rv_of (wrap32 (harq_proc.nof_retx h + 1)) = rv).
    { rewrite Ec, wrap32_succ_wrap, rv_of_cycle. reflexivity. }
    split.
    + intros pdu dci.
      destruct (Rdl s a g (dl_harq_proc.mk h pdu) dci Hs Hg) as (R1 & _ & R3).
      split; [exact R1|]. rewrite <- Erv. exact R3.
    + intros dci.
      destruct (Rul s g h dci Hs Hg) as (R1 & _ & R3).
      split; [exact R1|]. rewrite <- Erv. exact R3.
  - intros slot_tx_ slot_ack_ g mcs_ max_retx_ d d' dci dci' E.
    apply dl_new_tx_inv in E. destruct E as (Hn & _ & ->).
    apply new_tx_inv in Hn. destruct Hn as [_ Hb].
    simpl. rewrite Hb. split; reflexivity.
  - intros slot_tx_ slot_ack_ g d d' dci dci' E.
    apply dl_new_retx_inv in E. destruct E as (_ & _ & ->). reflexivity.
  - intros slot_tx_ g mcs_ max_retx_ h h' dci dci' E.
    apply ul_new_tx_inv in E. destruct E as (Hn & ->).
    apply new_tx_inv in Hn. destruct Hn as [_ ->]. split; reflexivity.
  - intros slot_tx_ g h h' dci dci' E.
    apply ul_new_retx_inv in E. destruct E as (_ & ->). reflexivity.
Qed.

Lemma fill_dci_rv_witness :
  fst (fst (ul_harq_proc.new_retx 27 example_grant
              (acked false (retx_state (example_tx 4) 2))
              (mk_dci_ul 0 false 0 0))) = true /\
  ul_rv (snd (ul_harq_proc.new_retx 27 example_grant
                (acked false (retx_state (example_tx 4) 2))
                (mk_dci_ul 0 false 0 0))) = 1.
Proof.
  assert (L : lifecycle (example_tx 4) 2 (retx_state (example_tx 4) 2)).
  { apply nack_retx_rounds; [reflexivity|reflexivity|reflexivity|lia]. }
  exact (proj2
           (proj1 (proj2 (proj2 (proj2 (proj2 (@fill_dci_rv Z Z_slot)))))
              10 14 27 27 example_grant example_grant 5 4
              (fresh_harq 0 0) (example_tx 4)
              (acked false (retx_state (example_tx 4) 2)) 2
              (example_tx_ok 4)
              (lifecycle_step (example_tx 4) 2 _ (op_ack_info false) L)
              eq_refl eq_refl)
           (mk_dci_ul 0 false 0 0)).
Defined.

(** C9 (as amended): a successful [new_retx] on a pending process keeps the
    new-data indicator, the MCS, the transport block size, the budget
    [max_retx] (and the process id and the stored grant); it sets [slot_tx]
    and [slot_ack], makes the process wait for its ACK, clears the ack flag
    and increments the retransmission counter by 1 modulo 2^32, that is by
    exactly 1 unless the counter is 2^32 - 1; the overload with a grant
    stores the grant in addition.  No call other than [new_tx] changes the
    new-data indicator, so the DCI of a retransmission carries the indicator
    the process had, and the DCI of a new transmission its negation. *)
Theorem new_retx_frame {slot_point : Type} `{SlotPoint slot_point}
    (slot_tx_ slot_ack_ : slot_point) (h : harq_proc.t slot_point) :
  harq_proc.state h = tb_t.pending_retx ->
  harq_proc.new_retx slot_tx_ slot_ack_ h =
    (true,
     harq_proc.mk (harq_proc.pid h) (harq_proc.max_retx h) slot_tx_ slot_ack_
       (harq_proc.prbs_ h)
       (tb_t.mk tb_t.waiting_ack false (harq_proc.ndi h)
          (wrap32 (harq_proc.nof_retx h + 1)) (harq_proc.mcs h)
          (harq_proc.tbs h))) /\
  (0 <= harq_proc.nof_retx h < UINT32_MAX ->
   harq_proc.nof_retx (snd (harq_proc.new_retx slot_tx_ slot_ack_ h))
     = harq_proc.nof_retx h + 1) /\
  (forall g, shape_of g = shape_of (harq_proc.prbs_ h) ->
     harq_proc.new_retx_grant slot_tx_ slot_ack_ g h =
       (true,
        harq_proc.mk (harq_proc.pid h) (harq_proc.max_retx h) slot_tx_ slot_ack_ g
          (tb_t.mk tb_t.waiting_ack false (harq_proc.ndi h)
             (wrap32 (harq_proc.nof_retx h + 1)) (harq_proc.mcs h)
             (harq_proc.tbs h)))) /\
  (forall (o : harq_op slot_point) (h2 : harq_proc.t slot_point),
     harq_proc.ndi (snd (exec o h2)) = harq_proc.ndi h2) /\
  (forall h2 : harq_proc.t slot_point,
     harq_proc.ndi (harq_proc.reset h2) = harq_proc.ndi h2) /\
  (forall g pdu d' dci dci',
     dl_harq_proc.new_retx slot_tx_ slot_ack_ g (dl_harq_proc.mk h pdu) dci
       = (true, d', dci') ->
     dl_ndi dci' = harq_proc.ndi h) /\
  (forall g h' dci dci',
     ul_harq_proc.new_retx slot_tx_ g h dci = (true, h', dci') ->
     ul_ndi dci' = harq_proc.ndi h) /\
  (forall g mcs_ max_retx_ (d d' : dl_harq_proc.t slot_point) dci dci',
     dl_harq_proc.new_tx slot_tx_ slot_ack_ g mcs_ max_retx_ d dci
       = (true, d', dci') ->
     dl_ndi dci' = negb (harq_proc.ndi (dl_harq_proc.base d))) /\
  (forall g mcs_ max_retx_ (h2 h' : harq_proc.t slot_point) dci dci',
     ul_harq_proc.new_tx slot_tx_ g mcs_ max_retx_ h2 dci = (true, h', dci') ->
     ul_ndi dci' = negb (harq_proc.ndi h2)).
Proof.
  intros Hs.
  split; [apply new_retx_ok; exact Hs|].
  split.
  { intros Hr. rewrite new_retx_ok by assumption.
    unfold harq_proc.nof_retx at 1. simpl.
    apply wrap32_small. unfold UINT32_MAX in Hr. lia. }
  split.
  { intros g Hg. rewrite new_retx_grant_ok by assumption.
    rewrite new_retx_ok by assumption. reflexivity. }
  split.
  { intros o h2. pose proof (exec_frame o h2) as F. simpl in F. tauto. }
  split; [reflexivity|].
  split.
  { intros g pdu d' dci dci' E.
    apply dl_new_retx_inv in E. destruct E as (Hn & _ & ->).
    apply new_retx_grant_inv in Hn. destruct Hn as (_ & _ & Hb).
    simpl in *. rewrite Hb. rewrite new_retx_ok by assumption. reflexivity. }
  split.
  { intros g h' dci dci' E.
    apply ul_new_retx_inv in E. destruct E as (Hn & ->).
    apply new_retx_grant_inv in Hn. destruct Hn as (_ & _ & ->).
    rewrite new_retx_ok by assumption. reflexivity. }
  split.
  { intros g mcs_ max_retx_ d d' dci dci' E.
    apply dl_new_tx_inv in E. destruct E as (Hn & _ & ->).
    apply new_tx_inv in Hn. destruct Hn as [_ Hb].
    simpl. rewrite Hb. reflexivity. }
  intros g mcs_ max_retx_ h2 h' dci dci' E.
  apply ul_new_tx_inv in E. destruct E as (Hn & ->).
  apply new_tx_inv in Hn. destruct Hn as [_ ->]. reflexivity.
Qed.

Lemma new_retx_frame_witness :
  harq_proc.nof_retx (snd (harq_proc.new_retx 15 19 (acked false (example_tx 4))))
  = harq_proc.nof_retx (acked false (example_tx 4)) + 1.
Proof.
  apply (proj1 (proj2 (@new_retx_frame Z Z_slot 15 19 (acked false (example_tx 4))
                         eq_refl))).
  change (0 <= 0 < 4294967295). lia.
Defined.

(** C9, as stated, fails when the counter is 2^32 - 1, a state reached
    after that many retransmissions of a transmission with the budget
    2^32 - 1: the next retransmission resets the counter to 0. *)
Lemma new_retx_frame_counterexample :
  exists h : harq_proc.t Z,
    lifecycle (example_tx UINT32_MAX) UINT32_MAX h /\
    harq_proc.state h = tb_t.pending_retx /\
    fst (harq_proc.new_retx 15 19 h) = true /\
    harq_proc.nof_retx h = 4294967295 /\
    harq_proc.nof_retx (snd (harq_proc.new_retx 15 19 h)) = 0 /\
    harq_proc.nof_retx (snd (harq_proc.new_retx 15 19 h))
      <> harq_proc.nof_retx h + 1.
Proof.
  exists (acked false (retx_state (example_tx UINT32_MAX) UINT32_MAX)).
  split.
  - assert (L : lifecycle (example_tx UINT32_MAX) UINT32_MAX
                  (retx_state (example_tx UINT32_MAX) UINT32_MAX)).
    { apply nack_retx_rounds; try reflexivity. unfold UINT32_MAX. lia. }
    exact (lifecycle_step (example_tx UINT32_MAX) UINT32_MAX _
             (op_ack_info false) L).
  - vm_compute. repeat split. discriminate.
Qed.

(** ** Transport block size of a new transmission *)

Section Tbs.
Context {slot_point : Type} `{SlotPoint slot_point}.
Implicit Types (h : harq_proc.t slot_point) (o : harq_op slot_point).

Lemma exec_tbs o h :
  is_set_tbs o = false ->
  harq_proc.tbs (snd (exec o h)) = harq_proc.tbs h.
Proof.
  destruct o as [s|a|v|v|s a|s a g]; simpl; intros Ho; try discriminate.
  - pose proof (new_slot_frame s h) as F. simpl in F. tauto.
  - unfold harq_proc.ack_info; simpl.
    destruct (harq_proc.empty h); [reflexivity|].
    destruct a; reflexivity.
  - unfold harq_proc.set_mcs.
    destruct (harq_proc.empty h || (0 <? harq_proc.nof_retx h)); reflexivity.
  - destruct (new_retx_cases s a h) as [[Hs Hok]|[Hs Hf]].
    + rewrite new_retx_ok by assumption. reflexivity.
    + rewrite Hf. reflexivity.
  - unfold harq_proc.new_retx_grant.
    destruct (harq_proc.grant_mismatch g (harq_proc.prbs_ h)); [reflexivity|].
    destruct (new_retx_cases s a h) as [[Hs Hok]|[Hs Hf]].
    + rewrite new_retx_ok by assumption. reflexivity.
    + rewrite Hf. reflexivity.
Qed.

Lemma run_tbs (ops : list (harq_op slot_point)) :
  Forall (fun o => is_set_tbs o = false) ops ->
  forall h, harq_proc.tbs (snd (run ops h)) = harq_proc.tbs h.
Proof.
  induction 1 as [|o ops Ho _ IH]; intros h; simpl.
  - reflexivity.
  - specialize (IH (snd (exec o h))).
    destruct (run ops (snd (exec o h))) as [k h']. simpl in *.
    rewrite IH. apply exec_tbs. exact Ho.
Qed.

End Tbs.

(** C10: right after a successful [new_tx] the stored transport block size
    is 0, and it stays 0 through any calls other than [set_tbs] (and
    [new_tx]); a positive [ack_info] on the process, as long as it is not
    empty, then succeeds, empties the process and returns 0. *)
Theorem new_tx_tbs_zero {slot_point : Type} `{SlotPoint slot_point}
    (slot_tx_ slot_ack_ : slot_point) g mcs_ max_retx_
    (h0 h1 : harq_proc.t slot_point) (ops : list (harq_op slot_point)) :
  harq_proc.new_tx slot_tx_ slot_ack_ g mcs_ max_retx_ h0 = (true, h1) ->
  Forall (fun o => is_set_tbs o = false) ops ->
  harq_proc.tbs h1 = 0 /\
  harq_proc.ack_info 0 true h1 = Some (0, acked true h1) /\
  harq_proc.state (acked true h1) = tb_t.empty /\
  (let h2 := snd (run ops h1) in
   harq_proc.tbs h2 = 0 /\
   (harq_proc.state h2 <> tb_t.empty ->
    harq_proc.ack_info 0 true h2 = Some (0, acked true h2) /\
    harq_proc.state (acked true h2) = tb_t.empty)).
Proof.
  intros Hn Hops.
  apply new_tx_inv in Hn. destruct Hn as [_ Hb].
  assert (Ht : harq_proc.tbs h1 = 0) by (rewrite Hb; reflexivity).
  split; [exact Ht|].
  split.
  { rewrite ack_info_nonempty by (rewrite Hb; discriminate).
    rewrite Ht. reflexivity. }
  split; [reflexivity|].
  simpl. rewrite (run_tbs ops Hops h1), Ht.
  split; [reflexivity|].
  intros Hs. rewrite ack_info_nonempty by assumption.
  rewrite (run_tbs ops Hops h1), Ht. split; reflexivity.
Qed.

Lemma new_tx_tbs_zero_witness :
  harq_proc.ack_info 0 true (example_tx 4) = Some (0, acked true (example_tx 4)).
Proof.
  apply (proj1 (proj2 (@new_tx_tbs_zero Z Z_slot 10 14 example_grant 5 4
                         (fresh_harq 0 0) (example_tx 4)
                         [op_new_slot 12; op_set_mcs 7]
                         (example_tx_ok 4)
                         ltac:(repeat constructor)))).
Defined.

(** ** Examples for the state machine *)

Lemma new_slot_discard_after_nack_witness :
  harq_proc.state (harq_proc.new_slot 14 (example_tx 0)) = tb_t.empty.
Proof.
  apply (proj1 (proj2 (proj2 (proj2
           (@new_slot_discard_after_nack Z Z_slot 14 (example_tx 0)
              ltac:(discriminate) eq_refl))))).
  - reflexivity.
  - change (0 <= 0 < 4294967295). lia.
  - change (0 <= 0). lia.
Defined.

(** C2, as stated, fails for a process whose budget is 2^32 - 1 and that has
    been retransmitted as many times: its budget is exhausted, it waits for
    its ACK and its ack slot is reached, yet the sum in the discard check
    wraps to 0 and [new_slot] leaves it pending. *)
Lemma new_slot_discard_after_nack_counterexample :
  let h := retx_state (example_tx UINT32_MAX) UINT32_MAX in
  lifecycle (example_tx UINT32_MAX) UINT32_MAX h /\
  harq_proc.state h = tb_t.waiting_ack /\
  harq_proc.nof_retx h = 4294967295 /\
  harq_proc.max_nof_retx h = 4294967295 /\
  slot_lt 14 (harq_proc.slot_ack h) = false /\
  harq_proc.state (harq_proc.new_slot 14 h) = tb_t.pending_retx /\
  harq_proc.state (harq_proc.new_slot 14 h) <> tb_t.empty.
Proof.
  split.
  - apply nack_retx_rounds; try reflexivity. unfold UINT32_MAX. lia.
  - vm_compute. repeat split. discriminate.
Qed.

Lemma new_tx_iff_empty_witness :
  harq_proc.state (snd (harq_proc.new_tx 10 14 example_grant 5 4 (fresh_harq 0 0)))
    = tb_t.waiting_ack /\
  harq_proc.ndi (snd (harq_proc.new_tx 10 14 example_grant 5 4 (fresh_harq 0 0)))
    = negb (harq_proc.ndi (fresh_harq (slot_point := Z) 0 0)).
Proof.
  apply (proj1 (proj2 (@new_tx_iff_empty Z Z_slot 10 14 example_grant 5 4
                         (fresh_harq 0 0)))).
  reflexivity.
Defined.

Lemma ack_info_result_witness :
  harq_proc.ack_info 0 true (snd (harq_proc.set_tbs 1500 (example_tx 4)))
  = Some (1500, acked true (snd (harq_proc.set_tbs 1500 (example_tx 4)))).
Proof.
  apply (proj1 (proj2 (proj2 (proj2 (@ack_info_result Z
                                       (snd (harq_proc.set_tbs 1500 (example_tx 4))))
                                ltac:(discriminate))))).
  change (1500 < 2147483648). lia.
Defined.

(** C4, as stated, fails for a transport block size that does not fit in an
    [int]: with the size 2^32 - 1 a positive ACK on a waiting process returns
    -1, the value that reports a failure, although the process is emptied. *)
Lemma ack_info_result_counterexample :
  let h := snd (harq_proc.set_tbs 4294967295 (example_tx 4)) in
  harq_proc.state h = tb_t.waiting_ack /\
  harq_proc.tbs h = 4294967295 /\
  harq_proc.ack_info 0 true h = Some (-1, acked true h) /\
  option_map fst (harq_proc.ack_info 0 true h) <> Some (harq_proc.tbs h).
Proof.
  vm_compute. repeat split. discriminate.
Qed.

Lemma new_slot_noop_witness :
  harq_proc.new_slot 13 (example_tx 4) = example_tx 4.
Proof.
  apply (proj1 (proj2 (@new_slot_noop Z Z_slot 13 (example_tx 4)))).
  - reflexivity.
  - reflexivity.
Defined.

(** ** Event lists *)

Section EventManagerFacts.
Import event_manager.
Variable sched_state : Type.
Variable valid : sched_state -> event_t sched_state -> bool.
Variable must_wait : sched_state -> event_t sched_state -> bool.
Variable common : bool.
Variable st0 : sched_state.
Implicit Types (s : event_manager.t sched_state) (q : queued sched_state).
Implicit Types (h : handled sched_state) (a : action sched_state).

Lemma consistent_snoc (l : list (handled sched_state)) : forall st h,
  consistent st l -> before h = fold_left effect l st -> consistent st (l ++ [h]).
Proof.
  induction l as [|x l IH]; intros st h Hc Hb; simpl in *.
  - auto.
  - destruct Hc as [Hx Hl]. split; [exact Hx|]. apply IH; assumption.
Qed.

Lemma handle_event_spec sl q st :
  let r := handle_event valid must_wait common sl q st in
  at_slot (fst (fst r)) = sl /\ what (fst (fst r)) = q /\
  before (fst (fst r)) = st /\
  how (fst (fst r)) = verdict valid must_wait common st (event q) /\
  snd (fst r) = effect st (fst (fst r)) /\
  Forall (fun q' => enq_slot q' = sl) (snd r).
Proof.
  unfold handle_event, effect.
  destruct (verdict valid must_wait common st (event q)); simpl;
    repeat split; auto.
Qed.

Lemma em_inv_init sl : em_inv valid must_wait common st0 (init st0 sl).
Proof. constructor; simpl; auto. Qed.

Lemma em_inv_step a s s' :
  em_inv valid must_wait common st0 s ->
  step valid must_wait common a s = Some s' ->
  em_inv valid must_wait common st0 s'.
Proof.
  intros [Hn Hc Hd Hl Hh Hs Hb] Hstep.
  destruct a as [e| | |]; simpl in Hstep.
  - inversion Hstep; subst; clear Hstep.
    constructor; simpl; try assumption.
    + apply Forall_app. split; [exact Hn|]. constructor; [reflexivity|constructor].
    + rewrite Hh. unfold pending. simpl. rewrite <- !app_assoc. reflexivity.
  - destruct (draining s) eqn:Ed; [discriminate|].
    inversion Hstep; subst; clear Hstep.
    constructor; simpl; try assumption.
    + rewrite Hd. constructor.
    + eapply Forall_impl; [|exact Hn]. simpl. intros q Hq. lia.
    + exists []. reflexivity.
    + eapply Forall_impl; [|exact Hl]. simpl. intros h (H1 & H2 & H3).
      repeat split; [assumption|lia|assumption].
    + rewrite Hh. unfold pending. rewrite Ed. simpl.
      rewrite Hd, app_nil_r. reflexivity.
  - destruct (draining s) as [[|q rest]|] eqn:Ed; try discriminate.
    pose proof (handle_event_spec (sl_tx s) q (sched s)) as Hev. simpl in Hev.
    destruct (handle_event valid must_wait common (sl_tx s) q (sched s))
      as [[h st] again].
    simpl in Hev. destruct Hev as (Ea & Ew & Eb & Eh & Es & Eq).
    inversion Hstep; subst s'; clear Hstep.
    destruct Hd as [pre Hpre].
    constructor; simpl; try assumption.
    + apply Forall_app. split; assumption.
    + exists (pre ++ [q]). rewrite <- app_assoc. exact Hpre.
    + apply Forall_app. split; [exact Hl|].
      constructor; [|constructor]. split; [|split].
      * rewrite Ea, Ew. rewrite Hpre in Hc.
        apply Forall_app in Hc. destruct Hc as [_ Hc].
        inversion Hc; subst. lia.
      * rewrite Ea. lia.
      * rewrite Eh, Eb, Ew. reflexivity.
    + rewrite Hh. unfold pending. rewrite Ed. simpl.
      rewrite map_app. simpl. rewrite Ew.
      repeat (rewrite <- app_assoc; simpl). reflexivity.
    + rewrite fold_left_app. simpl. rewrite <- Hs. exact Es.
    + apply consistent_snoc; [exact Hb|]. rewrite Eb. exact Hs.
  - destruct (draining s) as [[|q rest]|] eqn:Ed; try discriminate.
    inversion Hstep; subst; clear Hstep.
    constructor; simpl; try assumption.
    + constructor.
    + reflexivity.
    + rewrite Hh. unfold pending. rewrite Ed. reflexivity.
Qed.

Lemma em_inv_exec (tr : list (action sched_state)) : forall s s',
  em_inv valid must_wait common st0 s ->
  exec valid must_wait common tr s = Some s' ->
  em_inv valid must_wait common st0 s'.
Proof.
  induction tr as [|a tr IH]; intros s s' Hi He; simpl in He.
  - inversion He; subst. exact Hi.
  - destruct (step valid must_wait common a s) as [s1|] eqn:Hs; [|discriminate].
    eapply IH; [|exact He]. eapply em_inv_step; eassumption.
Qed.

(** *** The consumer is never blocked *)

Ltac split_conj := repeat match goal with |- _ /\ _ => split end.

Lemma enqueue_batch_facts (es : list (event_t sched_state)) : forall s,
  em_inv valid must_wait common st0 s ->
  em_inv valid must_wait common st0 (enqueue_batch es s) /\
  draining (enqueue_batch es s) = draining s /\
  sl_tx (enqueue_batch es s) = sl_tx s /\
  log (enqueue_batch es s) = log s /\
  incl (history s) (history (enqueue_batch es s)).
Proof.
  induction es as [|e es IH]; intros s Hi; unfold enqueue_batch; simpl.
  - split_conj; auto. apply incl_refl.
  - assert (Hi1 : em_inv valid must_wait common st0 (enqueue_one e s))
      by exact (em_inv_step (enqueue e) s _ Hi eq_refl).
    destruct (IH _ Hi1) as (I1 & I2 & I3 & I4 & I5).
    unfold enqueue_batch in *.
    split_conj; try assumption.
    eapply incl_tran; [|exact I5]. simpl. apply incl_appl. apply incl_refl.
Qed.

Lemma step_handle_some s q r :
  draining s = Some (q :: r) ->
  exists s', step valid must_wait common handle s = Some s' /\
             draining s' = Some r /\ sl_tx s' = sl_tx s /\
             incl (history s) (history s').
Proof.
  intros Hd. simpl. rewrite Hd.
  destruct (handle_event valid must_wait common (sl_tx s) q (sched s))
    as [[h st] again].
  eexists. split; [reflexivity|]. simpl.
  split_conj; try reflexivity. apply incl_appl. apply incl_refl.
Qed.

Lemma finish_progress (r : list (queued sched_state)) : forall arrivals s,
  em_inv valid must_wait common st0 s ->
  draining s = Some r ->
  exists s', finish valid must_wait common r arrivals s = Some s' /\
             em_inv valid must_wait common st0 s' /\
             draining s' = None /\ sl_tx s' = sl_tx s /\
             incl (history s) (history s').
Proof.
  induction r as [|q r IH]; intros arrivals s Hi Hd; cbn [finish].
  - destruct (enqueue_batch_facts (concat arrivals) s Hi) as (B1 & B2 & B3 & _ & B5).
    rewrite Hd in B2.
    set (s1 := enqueue_batch (concat arrivals) s) in *.
    assert (C : exists s', step valid must_wait common clear s1 = Some s' /\
                           draining s' = None /\ sl_tx s' = sl_tx s1 /\
                           history s' = history s1).
    { simpl. rewrite B2. eexists. split; [reflexivity|]. simpl. auto. }
    destruct C as (s' & C1 & C2 & C3 & C4).
    exists s'. split; [exact C1|].
    split; [exact (em_inv_step clear _ _ B1 C1)|].
    split; [exact C2|]. split; [lia|]. rewrite C4. exact B5.
  - destruct (enqueue_batch_facts (hd [] arrivals) s Hi) as (B1 & B2 & B3 & _ & B5).
    rewrite Hd in B2.
    destruct (step_handle_some _ q r B2) as (s1 & S1 & S2 & S3 & S4).
    rewrite S1.
    destruct (IH (tl arrivals) s1 (em_inv_step handle _ _ B1 S1) S2)
      as (s' & F1 & F2 & F3 & F4 & F5).
    exists s'. split; [exact F1|]. split; [exact F2|].
    split; [exact F3|]. split; [lia|].
    eapply incl_tran; [exact B5|]. eapply incl_tran; [exact S4|exact F5].
Qed.

Lemma finish_current_progress arrivals s :
  em_inv valid must_wait common st0 s ->
  exists s', finish_current valid must_wait common arrivals s = Some s' /\
             em_inv valid must_wait common st0 s' /\
             draining s' = None /\ sl_tx s' = sl_tx s /\
             incl (history s) (history s').
Proof.
  intros Hi. unfold finish_current.
  destruct (draining s) as [r|] eqn:Hd.
  - apply finish_progress; assumption.
  - exists s. split_conj; auto. apply incl_refl.
Qed.

Lemma run_slot_progress arrivals s :
  em_inv valid must_wait common st0 s ->
  draining s = None ->
  exists s', run_slot valid must_wait common arrivals s = Some s' /\
             em_inv valid must_wait common st0 s' /\
             draining s' = None /\ sl_tx s' = sl_tx s + 1 /\
             incl (history s) (history s').
Proof.
  intros Hi Hd. unfold run_slot. simpl. rewrite Hd.
  set (s1 := mk (mk_event_list (current_events (events s)) (next_events (events s)))
                (sl_tx s + 1) (Some (next_events (events s)))
                (sched s) (history s) (log s)).
  assert (Hi1 : em_inv valid must_wait common st0 s1).
  { apply (em_inv_step swap s s1 Hi). simpl. rewrite Hd. reflexivity. }
  destruct (finish_progress (pending s1) arrivals s1 Hi1 eq_refl)
    as (s' & F1 & F2 & F3 & F4 & F5).
  exists s'. split_conj; assumption.
Qed.

(** Once no slot is running, everything enqueued during an earlier slot has
    been drained, during the slot after the one of its arrival. *)
Lemma handled_when_done s q :
  em_inv valid must_wait common st0 s ->
  In q (history s) ->
  enq_slot q < sl_tx s ->
  draining s = None ->
  exists h, In h (log s) /\ what h = q /\
            at_slot h = enq_slot q + 1 /\
            how h = verdict valid must_wait common (before h) (event q).
Proof.
  intros [Hn _ _ Hl Hh _ _] Hq Hlt Hd.
  rewrite Forall_forall in Hn, Hl.
  rewrite Hh in Hq. unfold pending in Hq. rewrite Hd in Hq. simpl in Hq.
  apply in_app_or in Hq. destruct Hq as [Hq|Hq].
  - apply in_map_iff in Hq. destruct Hq as (h & Hw & Hin).
    exists h. destruct (Hl h Hin) as (Ha & _ & Ho). subst q. auto.
  - pose proof (Hn q Hq). lia.
Qed.


End EventManagerFacts.



(** * Further properties of the HARQ code *)

(** ** Transitions of a process *)

Section Transitions.
Context {slot_point : Type} `{SlotPoint slot_point}.
Implicit Types (h : harq_proc.t slot_point) (g : prb_grant.t).
Implicit Types (o : harq_op slot_point).

Lemma set_tbs_cases v h :
  (harq_proc.state h <> tb_t.empty /\ harq_proc.nof_retx h <= 0 /\
   harq_proc.set_tbs v h
     = (true, harq_proc.with_tb (tb_t.with_tbs v (harq_proc.tb h)) h)) \/
  ((harq_proc.state h = tb_t.empty \/ 0 < harq_proc.nof_retx h) /\
   harq_proc.set_tbs v h = (false, h)).
Proof.
  unfold harq_proc.set_tbs.
  destruct (harq_proc.empty h) eqn:He; simpl.
  - right. apply empty_true in He. auto.
  - apply empty_false in He.
    destruct (Z.ltb_spec 0 (harq_proc.nof_retx h)); [right; auto|left].
    split; [exact He|]. split; [lia|reflexivity].
Qed.

Lemma set_mcs_cases v h :
  (harq_proc.state h <> tb_t.empty /\ harq_proc.nof_retx h <= 0 /\
   harq_proc.set_mcs v h
     = (true, harq_proc.with_tb (tb_t.with_mcs v (harq_proc.tb h)) h)) \/
  ((harq_proc.state h = tb_t.empty \/ 0 < harq_proc.nof_retx h) /\
   harq_proc.set_mcs v h = (false, h)).
Proof.
  unfold harq_proc.set_mcs.
  destruct (harq_proc.empty h) eqn:He; simpl.
  - right. apply empty_true in He. auto.
  - apply empty_false in He.
    destruct (Z.ltb_spec 0 (harq_proc.nof_retx h)); [right; auto|left].
    split; [exact He|]. split; [lia|reflexivity].
Qed.

Lemma new_retx_grant_cases s a g h :
  (exists h', harq_proc.new_retx_grant s a g h = (true, h') /\
              harq_proc.state h = tb_t.pending_retx /\
              harq_proc.state h' = tb_t.waiting_ack) \/
  harq_proc.new_retx_grant s a g h = (false, h).
Proof.
  unfold harq_proc.new_retx_grant.
  destruct (harq_proc.grant_mismatch g (harq_proc.prbs_ h)); [right; reflexivity|].
  destruct (new_retx_cases s a h) as [[Hs Hok]|[Hs Hf]].
  - left. rewrite new_retx_ok by assumption. eexists. split; [reflexivity|].
    split; [exact Hs|reflexivity].
  - right. rewrite Hf. reflexivity.
Qed.

(** The state a call other than [new_tx] leaves. *)
Lemma exec_state o h :
  harq_proc.state (snd (exec o h)) =
  match o with
  | op_new_slot rx =>
      if harq_proc.empty h then tb_t.empty
      else if slot_lt rx (harq_proc.slot_ack h) then harq_proc.state h
      else if harq_proc.max_nof_retx h <? wrap32 (harq_proc.nof_retx h + 1)
      then tb_t.empty else tb_t.pending_retx
  | op_ack_info a =>
      if harq_proc.empty h then tb_t.empty
      else if a then tb_t.empty else tb_t.pending_retx
  | op_set_tbs _ | op_set_mcs _ => harq_proc.state h
  | op_new_retx _ _ | op_new_retx_grant _ _ _ =>
      if fst (exec o h) then tb_t.waiting_ack else harq_proc.state h
  end.
Proof.
  destruct o as [rx|a|v|v|s a|s a g]; simpl.
  - destruct (harq_proc.empty h) eqn:He.
    + apply empty_true in He. rewrite new_slot_empty; assumption.
    + apply empty_false in He.
      destruct (slot_lt rx (harq_proc.slot_ack h)) eqn:Hr.
      * rewrite new_slot_early by assumption. reflexivity.
      * apply new_slot_reached_state; assumption.
  - unfold harq_proc.ack_info. simpl.
    destruct (harq_proc.empty h) eqn:He.
    + apply empty_true in He. exact He.
    + destruct a; reflexivity.
  - destruct (set_tbs_cases v h) as [(_ & _ & ->)|(_ & ->)]; reflexivity.
  - destruct (set_mcs_cases v h) as [(_ & _ & ->)|(_ & ->)]; reflexivity.
  - destruct (new_retx_cases s a h) as [[Hs Hok]|[Hs Hf]].
    + rewrite new_retx_ok by assumption. reflexivity.
    + rewrite Hf. reflexivity.
  - destruct (new_retx_grant_cases s a g h) as [(h' & Hok & _ & Hw)|Hf].
    + rewrite Hok. exact Hw.
    + rewrite Hf. reflexivity.
Qed.

Lemma retx_needs_pending o h :
  is_retx o = true -> fst (exec o h) = true ->
  harq_proc.state h = tb_t.pending_retx.
Proof.
  destruct o as [rx|a|v|v|s a|s a g]; simpl; try discriminate; intros _ Hok.
  - destruct (new_retx_cases s a h) as [[Hs _]|[_ Hf]]; [exact Hs|].
    rewrite Hf in Hok. discriminate.
  - destruct (new_retx_grant_cases s a g h) as [(h' & _ & Hs & _)|Hf];
      [exact Hs|].
    rewrite Hf in Hok. discriminate.
Qed.

(** [new_slot] twice at the same slot is [new_slot] once. *)
Lemma new_slot_twice rx h :
  harq_proc.new_slot rx (harq_proc.new_slot rx h) = harq_proc.new_slot rx h.
Proof.
  destruct (harq_proc.state h) eqn:Hs.
  - rewrite (new_slot_empty rx h Hs). apply new_slot_empty. exact Hs.
  - destruct (slot_lt rx (harq_proc.slot_ack h)) eqn:Hr.
    + rewrite (new_slot_early rx h Hr). apply new_slot_early. exact Hr.
    + pose proof (new_slot_frame rx h) as F. simpl in F.
      destruct F as (_ & Fm & _ & Fa & _ & _ & Fn & _).
      pose proof (exec_state (op_new_slot rx) h) as E. simpl in E.
      rewrite (proj2 (empty_false h)), Hr in E by congruence.
      set (h' := harq_proc.new_slot rx h) in *.
      destruct (harq_proc.max_nof_retx h <? wrap32 (harq_proc.nof_retx h + 1))
        eqn:Hc.
      * apply new_slot_empty. exact E.
      * rewrite new_slot_reached by (congruence || (rewrite Fa; exact Hr)).
        unfold harq_proc.implicit_nack. rewrite E. simpl.
        unfold harq_proc.discard_check, harq_proc.max_nof_retx in *.
        rewrite Fm, Fn, Hc. reflexivity.
  - destruct (slot_lt rx (harq_proc.slot_ack h)) eqn:Hr.
    + rewrite (new_slot_early rx h Hr). apply new_slot_early. exact Hr.
    + pose proof (new_slot_frame rx h) as F. simpl in F.
      destruct F as (_ & Fm & _ & Fa & _ & _ & Fn & _).
      pose proof (exec_state (op_new_slot rx) h) as E. simpl in E.
      rewrite (proj2 (empty_false h)), Hr in E by congruence.
      set (h' := harq_proc.new_slot rx h) in *.
      destruct (harq_proc.max_nof_retx h <? wrap32 (harq_proc.nof_retx h + 1))
        eqn:Hc.
      * apply new_slot_empty. exact E.
      * rewrite new_slot_reached by (congruence || (rewrite Fa; exact Hr)).
        unfold harq_proc.implicit_nack. rewrite E. simpl.
        unfold harq_proc.discard_check, harq_proc.max_nof_retx in *.
        rewrite Fm, Fn, Hc. reflexivity.
Qed.

End Transitions.

(** ** Transport block size and MCS over the life of a transmission *)

Section Frozen.
Context {slot_point : Type} `{SlotPoint slot_point}.
Implicit Types (h : harq_proc.t slot_point) (g : prb_grant.t).
Implicit Types (o : harq_op slot_point).

Lemma lifecycle_trans h1 k h :
  lifecycle h1 k h ->
  forall k' h', lifecycle h k' h' -> lifecycle h1 (k + k') h'.
Proof.
  intros L1 k' h' L2. induction L2 as [|k' h' o L2 IH].
  - rewrite Z.add_0_r. exact L1.
  - rewrite Z.add_assoc. apply lifecycle_step. exact IH.
Qed.

(** Once a process has been retransmitted, no call other than [new_tx]
    changes its transport block size or its MCS. *)
Lemma exec_keeps_tbs_mcs o h :
  0 < harq_proc.nof_retx h ->
  harq_proc.tbs (snd (exec o h)) = harq_proc.tbs h /\
  harq_proc.mcs (snd (exec o h)) = harq_proc.mcs h.
Proof.
  intros Hn. destruct o as [s|a|v|v|s a|s a g]; simpl.
  - pose proof (new_slot_frame s h) as F. simpl in F. tauto.
  - unfold harq_proc.ack_info; simpl.
    destruct (harq_proc.empty h); [auto|]. destruct a; auto.
  - destruct (set_tbs_cases v h) as [(_ & Hz & _)|(_ & ->)]; [lia|auto].
  - destruct (set_mcs_cases v h) as [(_ & Hz & _)|(_ & ->)]; [lia|auto].
  - destruct (new_retx_cases s a h) as [[Hs Hok]|[Hs Hf]].
    + rewrite new_retx_ok by assumption. auto.
    + rewrite Hf. auto.
  - unfold harq_proc.new_retx_grant.
    destruct (harq_proc.grant_mismatch g (harq_proc.prbs_ h)); [auto|].
    destruct (new_retx_cases s a h) as [[Hs Hok]|[Hs Hf]].
    + rewrite new_retx_ok by assumption. auto.
    + rewrite Hf. auto.
Qed.

Lemma lifecycle_frozen h k' h' :
  lifecycle h k' h' ->
  0 < harq_proc.nof_retx h ->
  harq_proc.nof_retx h + k' < 4294967296 ->
  harq_proc.tbs h' = harq_proc.tbs h /\ harq_proc.mcs h' = harq_proc.mcs h.
Proof.
  intros L Hn. induction L as [|k' h' o L IH]; intros Hb.
  - auto.
  - pose proof (retx_done_cases o h') as D.
    destruct IH as [It Im]; [lia|].
    pose proof (lifecycle_inv _ _ _ L) as (Hk & _ & _ & _ & _ & Hc).
    assert (Hr : uint32 (harq_proc.nof_retx h))
      by (unfold uint32, UINT32_MAX; lia).
    specialize (Hc Hr).
    rewrite wrap32_small in Hc by lia.
    destruct (exec_keeps_tbs_mcs o h') as [Et Em]; [lia|].
    split; congruence.
Qed.

Lemma frozen_after_retx slot_tx_ slot_ack_ g0 mcs_ max_retx_ h0 h1 k h k' h' :
  harq_proc.new_tx slot_tx_ slot_ack_ g0 mcs_ max_retx_ h0 = (true, h1) ->
  lifecycle h1 k h ->
  lifecycle h k' h' ->
  0 < k -> k + k' < 4294967296 ->
  harq_proc.tbs h' = harq_proc.tbs h /\ harq_proc.mcs h' = harq_proc.mcs h.
Proof.
  intros Hn L1 L2 Hk Hb.
  pose proof (lifecycle_of_new_tx _ _ _ _ _ _ _ _ _ Hn L1) as (_ & _ & _ & _ & Ec).
  pose proof (lifecycle_inv _ _ _ L2) as (Hk' & _).
  rewrite wrap32_small in Ec by lia.
  apply (lifecycle_frozen h k' h' L2); lia.
Qed.

End Frozen.

(** X1: [set_tbs] and [set_mcs] work only during the first attempt of a
    transmission.  On a process reached from a successful [new_tx] by calls
    with [k] successful retransmissions ([k] below 2^32): with [k = 0] and the
    process in use, both succeed and write the given value; with [k > 0], or
    on an empty process, both fail and leave the process as it is. *)
Theorem set_tbs_mcs_window {slot_point : Type} `{SlotPoint slot_point}
    (slot_tx_ slot_ack_ : slot_point) g0 mcs_ max_retx_
    (h0 h1 h : harq_proc.t slot_point) k v :
  harq_proc.new_tx slot_tx_ slot_ack_ g0 mcs_ max_retx_ h0 = (true, h1) ->
  lifecycle h1 k h ->
  k < 4294967296 ->
  (k = 0 -> harq_proc.state h <> tb_t.empty ->
   harq_proc.set_tbs v h
     = (true, harq_proc.with_tb (tb_t.with_tbs v (harq_proc.tb h)) h) /\
   harq_proc.set_mcs v h
     = (true, harq_proc.with_tb (tb_t.with_mcs v (harq_proc.tb h)) h)) /\
  (0 < k ->
   harq_proc.set_tbs v h = (false, h) /\ harq_proc.set_mcs v h = (false, h)) /\
  (harq_proc.state h = tb_t.empty ->
   harq_proc.set_tbs v h = (false, h) /\ harq_proc.set_mcs v h = (false, h)).
Proof.
  intros Hn L Hb.
  pose proof (lifecycle_of_new_tx _ _ _ _ _ _ _ _ _ Hn L) as (Hk & _ & _ & _ & Ec).
  rewrite wrap32_small in Ec by lia.
  split; [|split].
  - intros Hz Hs.
    destruct (set_tbs_cases v h) as [(_ & _ & Et)|([He|Hp] & _)];
      [|contradiction|lia].
    destruct (set_mcs_cases v h) as [(_ & _ & Em)|([He|Hp] & _)];
      [|contradiction|lia].
    auto.
  - intros Hz.
    destruct (set_tbs_cases v h) as [(_ & Hle & _)|(_ & Et)]; [lia|].
    destruct (set_mcs_cases v h) as [(_ & Hle & _)|(_ & Em)]; [lia|].
    auto.
  - intros Hs.
    destruct (set_tbs_cases v h) as [(Hne & _ & _)|(_ & Et)]; [contradiction|].
    destruct (set_mcs_cases v h) as [(Hne & _ & _)|(_ & Em)]; [contradiction|].
    auto.
Qed.

Lemma set_tbs_mcs_window_witness :
  harq_proc.set_tbs 1500 (retx_state (example_tx 4) 2)
    = (false, retx_state (example_tx 4) 2) /\
  harq_proc.set_mcs 9 (retx_state (example_tx 4) 2)
    = (false, retx_state (example_tx 4) 2).
Proof.
  apply (proj1 (proj2 (@set_tbs_mcs_window Z Z_slot 10 14 example_grant 5 4
                         (fresh_harq 0 0) (example_tx 4)
                         (retx_state (example_tx 4) 2) 2 1500
                         (example_tx_ok 4)
                         ltac:(apply nack_retx_rounds;
                               [reflexivity|reflexivity|reflexivity|lia])
                         ltac:(lia)))).
  lia.
Defined.

(** X2: from the first retransmission of a transmission on, and as long as
    fewer than 2^32 retransmissions were made, none of [new_slot],
    [ack_info], [set_tbs], [set_mcs] and [new_retx] changes the transport
    block size or the MCS of the process.  The two other functions do:
    [new_tx] (see X9 and C10) and [reset], which sets both to 2^32 - 1. *)
Theorem retx_freezes_tbs_mcs {slot_point : Type} `{SlotPoint slot_point}
    (slot_tx_ slot_ack_ : slot_point) g0 mcs_ max_retx_
    (h0 h1 h h' : harq_proc.t slot_point) k k' :
  harq_proc.new_tx slot_tx_ slot_ack_ g0 mcs_ max_retx_ h0 = (true, h1) ->
  lifecycle h1 k h ->
  lifecycle h k' h' ->
  0 < k -> k + k' < 4294967296 ->
  (harq_proc.tbs h' = harq_proc.tbs h /\ harq_proc.mcs h' = harq_proc.mcs h) /\
  (harq_proc.tbs (harq_proc.reset h') = 4294967295 /\
   harq_proc.mcs (harq_proc.reset h') = 4294967295).
Proof.
  intros Hn L1 L2 Hk Hb. split.
  - exact (frozen_after_retx _ _ _ _ _ _ _ _ _ _ _ Hn L1 L2 Hk Hb).
  - split; reflexivity.
Qed.

Lemma retx_freezes_tbs_mcs_witness :
  harq_proc.tbs (snd (exec (op_set_tbs 1500) (retx_state (example_tx 4) 1)))
    = harq_proc.tbs (retx_state (example_tx 4) 1) /\
  harq_proc.mcs (snd (exec (op_set_tbs 1500) (retx_state (example_tx 4) 1)))
    = harq_proc.mcs (retx_state (example_tx 4) 1).
Proof.
  apply (fun L1 L2 H1 H2 =>
           proj1 (@retx_freezes_tbs_mcs Z Z_slot 10 14 example_grant 5 4
                    (fresh_harq 0 0) (example_tx 4) (retx_state (example_tx 4) 1)
                    (snd (exec (op_set_tbs 1500) (retx_state (example_tx 4) 1)))
                    1 0 (example_tx_ok 4) L1 L2 H1 H2)).
  - apply nack_retx_rounds; [reflexivity|reflexivity|reflexivity|lia].
  - exact (lifecycle_step (retx_state (example_tx 4) 1) 0 _ (op_set_tbs 1500)
             (lifecycle_start _)).
  - lia.
  - lia.
Defined.

(** X3: the transport block size given to [set_tbs] right after a successful
    [new_tx] is accepted and is what a positive [ack_info] reports, whatever
    calls other than [set_tbs] and [new_tx] come in between, as long as the
    process is still in use: the value converted to [int], which is the value
    itself when it is below 2^31. *)
Theorem set_tbs_ack_round_trip {slot_point : Type} `{SlotPoint slot_point}
    (slot_tx_ slot_ack_ : slot_point) g mcs_ max_retx_
    (h0 h1 : harq_proc.t slot_point) (v : Z) (ops : list (harq_op slot_point)) :
  harq_proc.new_tx slot_tx_ slot_ack_ g mcs_ max_retx_ h0 = (true, h1) ->
  Forall (fun o => is_set_tbs o = false) ops ->
  fst (harq_proc.set_tbs v h1) = true /\
  (let h3 := snd (run ops (snd (harq_proc.set_tbs v h1))) in
   harq_proc.tbs h3 = v /\
   (harq_proc.state h3 <> tb_t.empty ->
    harq_proc.ack_info 0 true h3 = Some (to_int v, acked true h3) /\
    (v < 2147483648 ->
     harq_proc.ack_info 0 true h3 = Some (v, acked true h3)))).
Proof.
  intros Hn Hops.
  apply new_tx_inv in Hn. destruct Hn as [_ Hb].
  assert (Hs : harq_proc.set_tbs v h1
               = (true, harq_proc.with_tb (tb_t.with_tbs v (harq_proc.tb h1)) h1)).
  { rewrite Hb. reflexivity. }
  rewrite Hs. split; [reflexivity|].
  cbn [snd]. rewrite (run_tbs ops Hops).
  split; [reflexivity|].
  intros Hne. rewrite ack_info_nonempty by assumption.
  rewrite (run_tbs ops Hops).
  change (harq_proc.tbs
            (harq_proc.with_tb (tb_t.with_tbs v (harq_proc.tb h1)) h1)) with v.
  split; [reflexivity|].
  intros Hv. rewrite to_int_small by assumption. reflexivity.
Qed.

Lemma set_tbs_ack_round_trip_witness :
  fst (harq_proc.set_tbs 1500 (example_tx 4)) = true /\
  (let h3 := snd (run [op_new_slot 12; op_set_mcs 7]
                    (snd (harq_proc.set_tbs 1500 (example_tx 4)))) in
   harq_proc.tbs h3 = 1500 /\
   (harq_proc.state h3 <> tb_t.empty ->
    harq_proc.ack_info 0 true h3 = Some (to_int 1500, acked true h3) /\
    (1500 < 2147483648 ->
     harq_proc.ack_info 0 true h3 = Some (1500, acked true h3)))).
Proof.
  apply (@set_tbs_ack_round_trip Z Z_slot 10 14 example_grant 5 4
           (fresh_harq 0 0) (example_tx 4) 1500 [op_new_slot 12; op_set_mcs 7]
           (example_tx_ok 4)).
  repeat constructor.
Defined.

(** X4: [new_slot] is idempotent: a second call for the same slot changes
    nothing, whatever the state of the process. *)
Theorem new_slot_idempotent {slot_point : Type} `{SlotPoint slot_point}
    (slot_rx : slot_point) (h : harq_proc.t slot_point) :
  harq_proc.new_slot slot_rx (harq_proc.new_slot slot_rx h)
  = harq_proc.new_slot slot_rx h.
Proof. apply new_slot_twice. Qed.

(** X5: of all the functions that change a process, three can empty one
    that is in use: [ack_info] with a positive ACK, [new_slot] at or after
    the ack slot when one more retransmission would exceed the maximum, and
    [reset], which empties any process.  [new_tx], [set_tbs], [set_mcs],
    [new_retx], a negative [ack_info] and any other [new_slot] never do. *)
Theorem emptied_only_by_ack_or_discard {slot_point : Type} `{SlotPoint slot_point}
    (c : harq_call slot_point) (h : harq_proc.t slot_point) :
  (harq_proc.state h <> tb_t.empty ->
   harq_proc.state (snd (do_call c h)) = tb_t.empty ->
   c = call_op (op_ack_info true) \/
   exists slot_rx,
     c = call_op (op_new_slot slot_rx) /\
     slot_lt slot_rx (harq_proc.slot_ack h) = false /\
     harq_proc.max_nof_retx h < wrap32 (harq_proc.nof_retx h + 1)) /\
  harq_proc.state (harq_proc.reset h) = tb_t.empty.
Proof.
  split; [|reflexivity].
  intros Hs He. destruct c as [s a g m r|o]; simpl in He.
  - rewrite new_tx_fail in He by assumption. contradiction.
  - rewrite exec_state in He. apply empty_false in Hs.
    destruct o as [rx|a|v|v|s a|s a g]; rewrite ?Hs in He.
    + right. exists rx. split; [reflexivity|].
      destruct (slot_lt rx (harq_proc.slot_ack h)).
      * apply empty_false in Hs. contradiction.
      * split; [reflexivity|].
        destruct (Z.ltb_spec (harq_proc.max_nof_retx h)
                    (wrap32 (harq_proc.nof_retx h + 1))); [assumption|discriminate].
    + destruct a; [left; reflexivity|discriminate].
    + apply empty_false in Hs. contradiction.
    + apply empty_false in Hs. contradiction.
    + destruct (fst (exec (op_new_retx s a) h)); [discriminate|].
      apply empty_false in Hs. contradiction.
    + destruct (fst (exec (op_new_retx_grant s a g) h)); [discriminate|].
      apply empty_false in Hs. contradiction.
Qed.

Lemma emptied_only_by_ack_or_discard_witness :
  call_op (op_new_slot 14) = call_op (op_ack_info true) \/
  exists slot_rx,
    call_op (op_new_slot 14) = call_op (op_new_slot slot_rx) /\
    slot_lt slot_rx (harq_proc.slot_ack (example_tx 0)) = false /\
    harq_proc.max_nof_retx (example_tx 0)
      < wrap32 (harq_proc.nof_retx (example_tx 0) + 1).
Proof.
  apply (proj1 (@emptied_only_by_ack_or_discard Z Z_slot
                  (call_op (op_new_slot 14)) (example_tx 0))).
  - discriminate.
  - reflexivity.
Defined.

(** X6: a process waits for an ACK only after a transmission: a call leaves
    it in [waiting_ack] only if it was already there, or if the call is a
    successful [new_tx] on an empty process or a successful [new_retx] on a
    pending one. *)
Theorem waiting_only_after_transmission {slot_point : Type}
    `{SlotPoint slot_point}
    (c : harq_call slot_point) (h : harq_proc.t slot_point) :
  harq_proc.state (snd (do_call c h)) = tb_t.waiting_ack ->
  harq_proc.state h = tb_t.waiting_ack \/
  (fst (do_call c h) = true /\
   ((exists s a g m r, c = call_new_tx s a g m r) /\
    harq_proc.state h = tb_t.empty \/
    (exists o, c = call_op o /\ is_retx o = true) /\
    harq_proc.state h = tb_t.pending_retx)).
Proof.
  intros Hw. destruct c as [s a g m r|o]; simpl in *.
  - destruct (harq_proc.state h) eqn:Hs.
    + right. rewrite new_tx_ok by assumption. split; [reflexivity|].
      left. split; [|reflexivity]. exists s, a, g, m, r. reflexivity.
    + rewrite new_tx_fail in Hw by congruence. simpl in Hw. congruence.
    + left. reflexivity.
  - rewrite exec_state in Hw.
    destruct o as [rx|a|v|v|s a|s a g].
    + destruct (harq_proc.empty h); [discriminate|].
      destruct (slot_lt rx (harq_proc.slot_ack h)); [left; exact Hw|].
      destruct (harq_proc.max_nof_retx h <? wrap32 (harq_proc.nof_retx h + 1));
        discriminate.
    + destruct (harq_proc.empty h); [discriminate|]. destruct a; discriminate.
    + left. exact Hw.
    + left. exact Hw.
    + destruct (fst (exec (op_new_retx s a) h)) eqn:Hok; [|left; exact Hw].
      right. split; [reflexivity|]. right. split.
      * exists (op_new_retx s a). split; reflexivity.
      * exact (retx_needs_pending (op_new_retx s a) h eq_refl Hok).
    + destruct (fst (exec (op_new_retx_grant s a g) h)) eqn:Hok;
        [|left; exact Hw].
      right. split; [reflexivity|]. right. split.
      * exists (op_new_retx_grant s a g). split; reflexivity.
      * exact (retx_needs_pending (op_new_retx_grant s a g) h eq_refl Hok).
Qed.

Lemma waiting_only_after_transmission_witness :
  harq_proc.state (fresh_harq (slot_point := Z) 0 0) = tb_t.waiting_ack \/
  (fst (do_call (call_new_tx 10 14 example_grant 5 4) (fresh_harq 0 0)) = true /\
   ((exists s a g m r,
       call_new_tx 10 14 example_grant 5 4 = call_new_tx s a g m r) /\
    harq_proc.state (fresh_harq (slot_point := Z) 0 0) = tb_t.empty \/
    (exists o, call_new_tx 10 14 example_grant 5 4 = call_op o /\
               is_retx o = true) /\
    harq_proc.state (fresh_harq (slot_point := Z) 0 0) = tb_t.pending_retx)).
Proof.
  apply (@waiting_only_after_transmission Z Z_slot
           (call_new_tx 10 14 example_grant 5 4) (fresh_harq 0 0)).
  reflexivity.
Defined.

(** ** Invariants of a process under all calls *)

Section CallInvariants.
Context {slot_point : Type} `{SlotPoint slot_point}.
Implicit Types (h : harq_proc.t slot_point) (c : harq_call slot_point).

Lemma do_call_pid c h : harq_proc.pid (snd (do_call c h)) = harq_proc.pid h.
Proof.
  destruct c as [s a g m r|o]; simpl.
  - destruct (harq_proc.state h) eqn:Hs.
    + rewrite new_tx_ok by assumption. reflexivity.
    + rewrite new_tx_fail by congruence. reflexivity.
    + rewrite new_tx_fail by congruence. reflexivity.
  - pose proof (exec_frame o h) as F. simpl in F. tauto.
Qed.

Lemma do_call_ack_flag c h :
  (ack_state h = true -> harq_proc.state h = tb_t.empty) ->
  ack_state (snd (do_call c h)) = true ->
  harq_proc.state (snd (do_call c h)) = tb_t.empty.
Proof.
  intros Hi. destruct c as [s a g m r|o]; simpl.
  - destruct (harq_proc.state h) eqn:Hs.
    + rewrite new_tx_ok by assumption. discriminate.
    + rewrite new_tx_fail by congruence. simpl. rewrite Hs. exact Hi.
    + rewrite new_tx_fail by congruence. simpl. rewrite Hs. exact Hi.
  - destruct o as [rx|a|v|v|s a|s a g]; simpl.
    + pose proof (new_slot_frame rx h) as F. simpl in F.
      destruct F as (_ & _ & _ & _ & _ & _ & _ & _ & _ & Fa).
      unfold ack_state. rewrite Fa. intros Ha.
      rewrite new_slot_empty; auto.
    + unfold harq_proc.ack_info. simpl.
      destruct (harq_proc.empty h) eqn:He; simpl.
      * exact Hi.
      * destruct a; [reflexivity|discriminate].
    + destruct (set_tbs_cases v h) as [(_ & _ & ->)|(_ & ->)]; exact Hi.
    + destruct (set_mcs_cases v h) as [(_ & _ & ->)|(_ & ->)]; exact Hi.
    + destruct (new_retx_cases s a h) as [[Hs Hok]|[Hs Hf]].
      * rewrite new_retx_ok by assumption. discriminate.
      * rewrite Hf. exact Hi.
    + unfold harq_proc.new_retx_grant.
      destruct (harq_proc.grant_mismatch g (harq_proc.prbs_ h)); [exact Hi|].
      destruct (new_retx_cases s a h) as [[Hs Hok]|[Hs Hf]].
      * rewrite new_retx_ok by assumption. discriminate.
      * rewrite Hf. exact Hi.
Qed.

End CallInvariants.

(** X7: through any sequence of calls ([new_tx] included) a process keeps its
    id, and its ack flag is set only while it is empty: a process that waits
    for an ACK or is pending always has its ack flag cleared. *)
Theorem ack_flag_invariant {slot_point : Type} `{SlotPoint slot_point}
    (cs : list (harq_call slot_point)) (h : harq_proc.t slot_point) :
  (ack_state h = true -> harq_proc.state h = tb_t.empty) ->
  harq_proc.pid (do_calls cs h) = harq_proc.pid h /\
  (ack_state (do_calls cs h) = true ->
   harq_proc.state (do_calls cs h) = tb_t.empty) /\
  (harq_proc.state (do_calls cs h) <> tb_t.empty ->
   ack_state (do_calls cs h) = false).
Proof.
  revert h. induction cs as [|c cs IH]; intros h Hi; simpl.
  - split; [reflexivity|]. split; [exact Hi|].
    intros Hne. destruct (ack_state h); [|reflexivity].
    exfalso. apply Hne. apply Hi. reflexivity.
  - destruct (IH (snd (do_call c h)) (do_call_ack_flag c h Hi)) as (Ip & Ia & In).
    split; [|split; assumption].
    rewrite Ip. apply do_call_pid.
Qed.

Lemma ack_flag_invariant_witness :
  ack_state (do_calls [call_new_tx 10 14 example_grant 5 4;
                       call_op (op_ack_info true);
                       call_new_tx 20 24 example_grant 5 4;
                       call_op (op_new_slot 24)]
               (fresh_harq 3 0)) = false.
Proof.
  apply (proj2 (proj2 (@ack_flag_invariant Z Z_slot
                         [call_new_tx 10 14 example_grant 5 4;
                          call_op (op_ack_info true);
                          call_new_tx 20 24 example_grant 5 4;
                          call_op (op_new_slot 24)]
                         (fresh_harq 3 0)
                         ltac:(discriminate)))).
  discriminate.
Defined.

(** ** The DL and UL wrappers *)

Section Wrappers.
Context {slot_point : Type} `{SlotPoint slot_point}.
Implicit Types (h : harq_proc.t slot_point) (g : prb_grant.t).
Implicit Types (d : dl_harq_proc.t slot_point).

Lemma new_retx_grant_iff s a g h :
  fst (harq_proc.new_retx_grant s a g h) = true <->
  harq_proc.state h = tb_t.pending_retx /\
  shape_of g = shape_of (harq_proc.prbs_ h).
Proof.
  split.
  - intros Hok.
    destruct (harq_proc.new_retx_grant s a g h) as [ok h'] eqn:E.
    simpl in Hok. subst ok.
    apply new_retx_grant_inv in E. tauto.
  - intros [Hs Hg]. rewrite new_retx_grant_ok by assumption. reflexivity.
Qed.

Lemma new_retx_grant_fail s a g h :
  fst (harq_proc.new_retx_grant s a g h) = false ->
  harq_proc.new_retx_grant s a g h = (false, h).
Proof.
  destruct (new_retx_grant_cases s a g h) as [(h' & -> & _)| ->].
  - discriminate.
  - reflexivity.
Qed.

Lemma new_tx_iff s a g m r h :
  fst (harq_proc.new_tx s a g m r h) = true <-> harq_proc.state h = tb_t.empty.
Proof.
  destruct (harq_proc.state h) eqn:Hs.
  - rewrite new_tx_ok by assumption. simpl. tauto.
  - rewrite new_tx_fail by congruence. simpl. split; discriminate.
  - rewrite new_tx_fail by congruence. simpl. split; discriminate.
Qed.

End Wrappers.

(** X8: the DL and UL wrappers succeed exactly when the call on the process
    does ([new_tx] on an empty process, [new_retx] on a pending process with a
    grant of the stored shape); a wrapper that fails leaves the process, the
    PDU and the DCI exactly as they were. *)
Theorem wrappers_fail_untouched {slot_point : Type} `{SlotPoint slot_point}
    (slot_tx_ slot_ack_ : slot_point) g mcs_ max_retx_
    (d : dl_harq_proc.t slot_point) (h : harq_proc.t slot_point)
    (dci : dci_dl_t) (dci_ul : dci_ul_t) :
  let r1 := dl_harq_proc.new_tx slot_tx_ slot_ack_ g mcs_ max_retx_ d dci in
  let r2 := dl_harq_proc.new_retx slot_tx_ slot_ack_ g d dci in
  let r3 := ul_harq_proc.new_tx slot_tx_ g mcs_ max_retx_ h dci_ul in
  let r4 := ul_harq_proc.new_retx slot_tx_ g h dci_ul in
  ((fst (fst r1) = true <->
    harq_proc.state (dl_harq_proc.base d) = tb_t.empty) /\
   (fst (fst r1) = false -> r1 = (false, d, dci))) /\
  ((fst (fst r2) = true <->
    harq_proc.state (dl_harq_proc.base d) = tb_t.pending_retx /\
    shape_of g = shape_of (harq_proc.prbs_ (dl_harq_proc.base d))) /\
   (fst (fst r2) = false -> r2 = (false, d, dci))) /\
  ((fst (fst r3) = true <-> harq_proc.state h = tb_t.empty) /\
   (fst (fst r3) = false -> r3 = (false, h, dci_ul))) /\
  ((fst (fst r4) = true <->
    harq_proc.state h = tb_t.pending_retx /\
    shape_of g = shape_of (harq_proc.prbs_ h)) /\
   (fst (fst r4) = false -> r4 = (false, h, dci_ul))).
Proof.
  simpl. destruct d as [b pdu]. simpl.
  split; [|split; [|split]].
  - unfold dl_harq_proc.new_tx. simpl.
    pose proof (new_tx_iff slot_tx_ slot_ack_ g mcs_ max_retx_ b) as I.
    destruct (harq_proc.state b) eqn:Hs.
    + rewrite new_tx_ok in * by assumption. simpl. split; [tauto|discriminate].
    + rewrite new_tx_fail in * by congruence. simpl. split; [exact I|reflexivity].
    + rewrite new_tx_fail in * by congruence. simpl. split; [exact I|reflexivity].
  - unfold dl_harq_proc.new_retx. simpl.
    pose proof (new_retx_grant_iff slot_tx_ slot_ack_ g b) as I.
    pose proof (new_retx_grant_fail slot_tx_ slot_ack_ g b) as F.
    destruct (harq_proc.new_retx_grant slot_tx_ slot_ack_ g b) as [[|] b'];
      simpl in *.
    + split; [exact I|discriminate].
    + split; [exact I|]. intros _. specialize (F eq_refl).
      inversion F. reflexivity.
  - unfold ul_harq_proc.new_tx.
    pose proof (new_tx_iff slot_tx_ slot_tx_ g mcs_ max_retx_ h) as I.
    destruct (harq_proc.state h) eqn:Hs.
    + rewrite new_tx_ok in * by assumption. simpl. split; [tauto|discriminate].
    + rewrite new_tx_fail in * by congruence. simpl. split; [exact I|reflexivity].
    + rewrite new_tx_fail in * by congruence. simpl. split; [exact I|reflexivity].
  - unfold ul_harq_proc.new_retx.
    pose proof (new_retx_grant_iff slot_tx_ slot_tx_ g h) as I.
    pose proof (new_retx_grant_fail slot_tx_ slot_tx_ g h) as F.
    destruct (harq_proc.new_retx_grant slot_tx_ slot_tx_ g h) as [[|] h'];
      simpl in *.
    + split; [exact I|discriminate].
    + split; [exact I|]. intros _. specialize (F eq_refl).
      inversion F. reflexivity.
Qed.

Lemma wrappers_fail_untouched_witness :
  dl_harq_proc.new_tx 20 24 example_grant 5 4
    (dl_harq_proc.mk (example_tx 4) [1; 2]) (mk_dci_dl f1_0 0 false 0 7 0)
  = (false, dl_harq_proc.mk (example_tx 4) [1; 2], mk_dci_dl f1_0 0 false 0 7 0).
Proof.
  apply (proj2 (proj1 (@wrappers_fail_untouched Z Z_slot 20 24 example_grant 5 4
                         (dl_harq_proc.mk (example_tx 4) [1; 2]) (example_tx 4)
                         (mk_dci_dl f1_0 0 false 0 7 0) (mk_dci_ul 0 false 0 0)))).
  reflexivity.
Defined.

(** X9: the DCI written by a successful new transmission.  For DL it keeps
    its format and carries the id of the process, the negated new-data
    indicator, the MCS given, redundancy version 0 and, as HARQ feedback,
    [slot_ack - slot_tx - 1] for format 1_0 and the slot index of [slot_tx]
    otherwise; the PDU of the process is cleared.  For UL it carries the id,
    the negated indicator, the MCS given and redundancy version 0, and the
    process expects its feedback in the transmission slot itself. *)
Theorem new_tx_dci {slot_point : Type} `{SlotPoint slot_point}
    (slot_tx_ slot_ack_ : slot_point) g mcs_ max_retx_ :
  (forall (d d' : dl_harq_proc.t slot_point) dci dci',
     dl_harq_proc.new_tx slot_tx_ slot_ack_ g mcs_ max_retx_ d dci
       = (true, d', dci') ->
     dci' = mk_dci_dl (dl_format dci)
              (harq_proc.pid (dl_harq_proc.base d))
              (negb (harq_proc.ndi (dl_harq_proc.base d)))
              mcs_ 0
              (match dl_format dci with
               | f1_0 => slot_sub slot_ack_ slot_tx_ - 1
               | _ => slot_index slot_tx_
               end) /\
     dl_harq_proc.pdu d' = []) /\
  (forall (h h' : harq_proc.t slot_point) dci dci',
     ul_harq_proc.new_tx slot_tx_ g mcs_ max_retx_ h dci = (true, h', dci') ->
     dci' = mk_dci_ul (harq_proc.pid h) (negb (harq_proc.ndi h)) mcs_ 0 /\
     harq_proc.slot_tx h' = slot_tx_ /\
     harq_proc.slot_ack h' = slot_tx_).
Proof.
  split.
  - intros d d' dci dci' E.
    apply dl_new_tx_inv in E. destruct E as (Hn & Hp & ->).
    apply new_tx_inv in Hn. destruct Hn as [_ Hb].
    split; [|exact Hp].
    unfold dl_harq_proc.fill_dci. rewrite Hb. reflexivity.
  - intros h h' dci dci' E.
    apply ul_new_tx_inv in E. destruct E as (Hn & ->).
    apply new_tx_inv in Hn. destruct Hn as [_ ->].
    repeat split; reflexivity.
Qed.

Lemma new_tx_dci_witness :
  mk_dci_dl f1_0 3 true 5 0 3 = mk_dci_dl f1_0 3 (negb false) 5 0 (14 - 10 - 1) /\
  dl_harq_proc.pdu
    (dl_harq_proc.mk
       (snd (harq_proc.new_tx 10 14 example_grant 5 4 (fresh_harq 3 0))) [])
  = [].
Proof.
  exact (proj1 (@new_tx_dci Z Z_slot 10 14 example_grant 5 4)
           (dl_harq_proc.mk (fresh_harq 3 0) [1; 2])
           (dl_harq_proc.mk
              (snd (harq_proc.new_tx 10 14 example_grant 5 4 (fresh_harq 3 0))) [])
           (mk_dci_dl f1_0 0 false 0 7 0)
           (mk_dci_dl f1_0 3 true 5 0 3)
           eq_refl).
Defined.

(** X10: all retransmissions of one transmission are announced alike: the
    DCIs written by two successful retransmissions (fewer than 2^32 in all)
    carry the same process id, the same new-data indicator, which is the one
    of the new transmission, and the same MCS; only the redundancy version
    moves on, to the schedule entry of the number of the retransmission. *)
Theorem retx_dci_agree {slot_point : Type} `{SlotPoint slot_point}
    (slot_tx_ slot_ack_ s a s' a' : slot_point) g0 g g' mcs_ max_retx_
    (h0 h1 h ha hb hc : harq_proc.t slot_point) k k' :
  harq_proc.new_tx slot_tx_ slot_ack_ g0 mcs_ max_retx_ h0 = (true, h1) ->
  lifecycle h1 k h ->
  harq_proc.new_retx_grant s a g h = (true, ha) ->
  lifecycle ha k' hb ->
  harq_proc.new_retx_grant s' a' g' hb = (true, hc) ->
  k + k' + 2 < 4294967296 ->
  (forall pdu pdu' dci dci',
     let dci_a := dl_harq_proc.fill_dci (dl_harq_proc.mk ha pdu) dci in
     let dci_c := dl_harq_proc.fill_dci (dl_harq_proc.mk hc pdu') dci' in
     dl_pid dci_c = dl_pid dci_a /\
     dl_ndi dci_c = dl_ndi dci_a /\
     dl_ndi dci_a = negb (harq_proc.ndi h0) /\
     dl_mcs dci_c = dl_mcs dci_a /\
     dl_rv dci_a = rv_of (k + 1) /\
     dl_rv dci_c = rv_of (k + k' + 2)) /\
  (forall dci dci',
     let dci_a := ul_harq_proc.fill_dci ha dci in
     let dci_c := ul_harq_proc.fill_dci hc dci' in
     ul_pid dci_c = ul_pid dci_a /\
     ul_ndi dci_c = ul_ndi dci_a /\
     ul_ndi dci_a = negb (harq_proc.ndi h0) /\
     ul_mcs dci_c = ul_mcs dci_a /\
     ul_rv dci_a = rv_of (k + 1) /\
     ul_rv dci_c = rv_of (k + k' + 2)).
Proof.
  intros Hn L1 Ra L2 Rc Hb.
  assert (La : lifecycle h1 (k + 1) ha).
  { pose proof (lifecycle_step h1 k h (op_new_retx_grant s a g) L1) as L.
    unfold retx_done in L. simpl in L. rewrite Ra in L. exact L. }
  assert (Lb : lifecycle h1 (k + 1 + k') hb)
    by exact (lifecycle_trans h1 (k + 1) ha La k' hb L2).
  assert (Lc : lifecycle h1 (k + 1 + k' + 1) hc).
  { pose proof (lifecycle_step h1 _ hb (op_new_retx_grant s' a' g') Lb) as L.
    unfold retx_done in L. simpl in L. rewrite Rc in L. exact L. }
  assert (Lac : lifecycle ha (k' + 1) hc).
  { pose proof (lifecycle_step ha k' hb (op_new_retx_grant s' a' g') L2) as L.
    unfold retx_done in L. simpl in L. rewrite Rc in L. exact L. }
  pose proof (lifecycle_inv _ _ _ L1) as (Hk & _).
  pose proof (lifecycle_inv _ _ _ L2) as (Hk' & _).
  pose proof (lifecycle_of_new_tx _ _ _ _ _ _ _ _ _ Hn La)
    as (_ & _ & Na & _ & Ca).
  pose proof (lifecycle_of_new_tx _ _ _ _ _ _ _ _ _ Hn Lc)
    as (_ & _ & Nc & _ & Cc).
  pose proof (lifecycle_inv _ _ _ Lac) as (_ & Pc & _ & _ & _ & _).
  destruct (frozen_after_retx _ _ _ _ _ _ _ _ _ _ _ Hn La Lac) as [_ Mc];
    [lia|lia|].
  replace (k + 1 + k' + 1) with (k + k' + 2) in Cc by lia.
  split.
  - intros pdu pdu' dci dci'. unfold dl_harq_proc.fill_dci. simpl.
    rewrite Pc, Nc, Na, Mc, Ca, Cc, !rv_of_cycle. repeat split; reflexivity.
  - intros dci dci'. unfold ul_harq_proc.fill_dci. simpl.
    rewrite Pc, Nc, Na, Mc, Ca, Cc, !rv_of_cycle. repeat split; reflexivity.
Qed.

Lemma retx_dci_agree_witness :
  ul_mcs (ul_harq_proc.fill_dci
            (snd (harq_proc.new_retx_grant 20 24 example_grant
                    (acked false
                       (snd (harq_proc.new_retx_grant 15 19 example_grant
                               (acked false (example_tx 4)))))))
            (mk_dci_ul 0 false 0 0))
  = ul_mcs (ul_harq_proc.fill_dci
              (snd (harq_proc.new_retx_grant 15 19 example_grant
                      (acked false (example_tx 4))))
              (mk_dci_ul 0 false 0 0)).
Proof.
  pose (h := acked false (example_tx 4)).
  pose (ha := snd (harq_proc.new_retx_grant 15 19 example_grant h)).
  pose (hb := acked false ha).
  pose (hc := snd (harq_proc.new_retx_grant 20 24 example_grant hb)).
  exact (proj1 (proj2 (proj2 (proj2
           (proj2 (@retx_dci_agree Z Z_slot 10 14 15 19 20 24
                     example_grant example_grant example_grant 5 4
                     (fresh_harq 0 0) (example_tx 4) h ha hb hc 0 0
                     (example_tx_ok 4)
                     (lifecycle_step (example_tx 4) 0 (example_tx 4)
                        (op_ack_info false) (lifecycle_start (example_tx 4)))
                     eq_refl
                     (lifecycle_step ha 0 ha (op_ack_info false)
                        (lifecycle_start ha))
                     eq_refl
                     ltac:(lia))
              (mk_dci_ul 0 false 0 0) (mk_dci_ul 0 false 0 0)))))).
Defined.

(** ** HARQ entities *)

Section Entity.
Context {slot_point : Type} `{SlotPoint slot_point}.
Implicit Types (h : harq_proc.t slot_point) (e : harq_entity.t slot_point).

Lemma create_dl_pids (s0 : slot_point) (n : nat) : forall pid,
  map (fun d => harq_proc.pid (dl_harq_proc.base d))
      (harq_entity.create_dl s0 n pid)
  = map (fun i => pid + Z.of_nat i) (seq 0 n).
Proof.
  induction n as [|n IH]; intros pid; simpl.
  - reflexivity.
  - rewrite IH, <- seq_shift, map_map. f_equal; [lia|].
    apply map_ext. intros i. lia.
Qed.

Lemma create_ul_pids (s0 : slot_point) (n : nat) : forall pid,
  map harq_proc.pid (harq_entity.create_ul s0 n pid)
  = map (fun i => pid + Z.of_nat i) (seq 0 n).
Proof.
  induction n as [|n IH]; intros pid; simpl.
  - reflexivity.
  - rewrite IH, <- seq_shift, map_map. f_equal; [lia|].
    apply map_ext. intros i. lia.
Qed.

(** What the body of the loops does to one process. *)
Lemma advance_spec dir rnti_ rx h :
  harq_entity.advance dir rnti_ rx h =
  (harq_proc.new_slot rx h,
   if harq_entity.discarded rx h then [harq_entity.msg_of dir rnti_ h] else []).
Proof.
  unfold harq_entity.advance, harq_entity.discarded, harq_entity.msg_of.
  f_equal.
  pose proof (new_slot_frame rx h) as F. simpl in F.
  destruct F as (Fp & Fm & _).
  unfold harq_proc.max_nof_retx. rewrite Fp, Fm.
  destruct (harq_proc.empty h) eqn:He; simpl.
  - reflexivity.
  - pose proof (exec_state (op_new_slot rx) h) as E. simpl in E.
    rewrite He in E. unfold harq_proc.empty at 1. rewrite E.
    apply empty_false in He.
    destruct (slot_lt rx (harq_proc.slot_ack h)); simpl.
    + apply state_eqb_neq in He. rewrite He. reflexivity.
    + unfold harq_proc.max_nof_retx.
      destruct (harq_proc.max_retx h <? wrap32 (harq_proc.nof_retx h + 1));
        reflexivity.
Qed.

Lemma advance_dl_spec rnti_ rx (ds : list (dl_harq_proc.t slot_point)) :
  harq_entity.advance_dl rnti_ rx ds =
  (map (fun d => dl_harq_proc.mk (harq_proc.new_slot rx (dl_harq_proc.base d))
                                 (dl_harq_proc.pdu d)) ds,
   map (harq_entity.msg_of harq_entity.DL rnti_)
       (filter (harq_entity.discarded rx) (map dl_harq_proc.base ds))).
Proof.
  induction ds as [|d ds IH]; cbn [harq_entity.advance_dl map filter].
  - reflexivity.
  - rewrite advance_spec, IH.
    destruct (harq_entity.discarded rx (dl_harq_proc.base d)); reflexivity.
Qed.

Lemma advance_ul_spec rnti_ rx (us : list (ul_harq_proc.t slot_point)) :
  harq_entity.advance_ul rnti_ rx us =
  (map (harq_proc.new_slot rx) us,
   map (harq_entity.msg_of harq_entity.UL rnti_)
       (filter (harq_entity.discarded rx) us)).
Proof.
  induction us as [|u us IH]; cbn [harq_entity.advance_ul map filter].
  - reflexivity.
  - rewrite advance_spec, IH.
    destruct (harq_entity.discarded rx u); reflexivity.
Qed.

Lemma new_slot_spec rx e :
  harq_entity.new_slot rx e =
  harq_entity.mk (harq_entity.rnti e)
    (map (fun d => dl_harq_proc.mk (harq_proc.new_slot rx (dl_harq_proc.base d))
                                   (dl_harq_proc.pdu d))
         (harq_entity.dl_harqs e))
    (map (harq_proc.new_slot rx) (harq_entity.ul_harqs e))
    rx
    (harq_entity.logger e
     ++ map (harq_entity.msg_of harq_entity.DL (harq_entity.rnti e))
            (filter (harq_entity.discarded rx)
                    (map dl_harq_proc.base (harq_entity.dl_harqs e)))
     ++ map (harq_entity.msg_of harq_entity.UL (harq_entity.rnti e))
            (filter (harq_entity.discarded rx) (harq_entity.ul_harqs e))).
Proof.
  unfold harq_entity.new_slot.
  rewrite advance_dl_spec, advance_ul_spec. reflexivity.
Qed.

(** A process that [new_slot] has just handled is not discarded by a second
    call for the same slot. *)
Lemma discarded_after_new_slot rx h :
  harq_entity.discarded rx (harq_proc.new_slot rx h) = false.
Proof.
  pose proof (advance_spec harq_entity.DL 0 rx (harq_proc.new_slot rx h)) as A.
  unfold harq_entity.advance in A.
  rewrite new_slot_twice in A.
  destruct (harq_entity.discarded rx (harq_proc.new_slot rx h)); [|reflexivity].
  exfalso.
  destruct (harq_proc.empty (harq_proc.new_slot rx h)); simpl in A;
    inversion A.
Qed.

End Entity.

Section EntityFacts.
Context {slot_point : Type} `{SlotPoint slot_point}.
Implicit Types (h : harq_proc.t slot_point) (e : harq_entity.t slot_point).

Lemma new_slot_pids rx e :
  harq_entity.dl_pids (harq_entity.new_slot rx e) = harq_entity.dl_pids e /\
  harq_entity.ul_pids (harq_entity.new_slot rx e) = harq_entity.ul_pids e /\
  map dl_harq_proc.pdu (harq_entity.dl_harqs (harq_entity.new_slot rx e))
    = map dl_harq_proc.pdu (harq_entity.dl_harqs e) /\
  harq_entity.rnti (harq_entity.new_slot rx e) = harq_entity.rnti e.
Proof.
  rewrite new_slot_spec.
  unfold harq_entity.dl_pids, harq_entity.ul_pids. simpl.
  rewrite !map_map. simpl.
  split; [|split; [|split]].
  - apply map_ext. intros d.
    pose proof (new_slot_frame rx (dl_harq_proc.base d)) as F. simpl in F. tauto.
  - apply map_ext. intros u.
    pose proof (new_slot_frame rx u) as F. simpl in F. tauto.
  - reflexivity.
  - reflexivity.
Qed.

Lemma filter_discarded_after rx (l : list (harq_proc.t slot_point)) :
  filter (harq_entity.discarded rx) (map (harq_proc.new_slot rx) l) = [].
Proof.
  induction l as [|h l IH]; simpl.
  - reflexivity.
  - rewrite discarded_after_new_slot. exact IH.
Qed.

Lemma discarded_iff rx h :
  harq_entity.discarded rx h = true <->
  harq_proc.state h <> tb_t.empty /\
  harq_proc.state (harq_proc.new_slot rx h) = tb_t.empty.
Proof.
  pose proof (exec_state (op_new_slot rx) h) as E. simpl in E.
  unfold harq_entity.discarded.
  destruct (harq_proc.empty h) eqn:He; simpl.
  - apply empty_true in He. split; [discriminate|]. tauto.
  - rewrite E. apply empty_false in He.
    destruct (slot_lt rx (harq_proc.slot_ack h)); simpl.
    + split; [discriminate|]. tauto.
    + destruct (harq_proc.max_nof_retx h <? wrap32 (harq_proc.nof_retx h + 1)).
      * tauto.
      * split; [discriminate|]. intros [_ Hp]. discriminate.
Qed.

End EntityFacts.

(** X11: an entity built for [n] HARQ processes has [n] DL and [n] UL
    processes, the one at position [i] having the id [i], and nothing logged;
    [new_slot], called any number of times, keeps the processes in place:
    same ids at the same positions, same PDUs, same RNTI. *)
Theorem entity_pids {slot_point : Type} `{SlotPoint slot_point}
    (rnti_ nprb nof_harq_procs : Z) (s0 : slot_point) (rxs : list slot_point) :
  let e0 := harq_entity.make rnti_ nprb nof_harq_procs s0 in
  let e := fold_left (fun e rx => harq_entity.new_slot rx e) rxs e0 in
  harq_entity.dl_pids e0 = harq_entity.ids (Z.to_nat nof_harq_procs) /\
  harq_entity.ul_pids e0 = harq_entity.ids (Z.to_nat nof_harq_procs) /\
  harq_entity.logger e0 = [] /\
  harq_entity.dl_pids e = harq_entity.ids (Z.to_nat nof_harq_procs) /\
  harq_entity.ul_pids e = harq_entity.ids (Z.to_nat nof_harq_procs) /\
  length (harq_entity.dl_harqs e) = Z.to_nat nof_harq_procs /\
  length (harq_entity.ul_harqs e) = Z.to_nat nof_harq_procs /\
  harq_entity.rnti e = rnti_.
Proof.
  intros e0 e.
  assert (D0 : harq_entity.dl_pids e0 = harq_entity.ids (Z.to_nat nof_harq_procs)).
  { unfold e0, harq_entity.make, harq_entity.dl_pids, harq_entity.ids. simpl.
    rewrite create_dl_pids. reflexivity. }
  assert (U0 : harq_entity.ul_pids e0 = harq_entity.ids (Z.to_nat nof_harq_procs)).
  { unfold e0, harq_entity.make, harq_entity.ul_pids, harq_entity.ids. simpl.
    rewrite create_ul_pids. reflexivity. }
  assert (K : harq_entity.dl_pids e = harq_entity.dl_pids e0 /\
              harq_entity.ul_pids e = harq_entity.ul_pids e0 /\
              harq_entity.rnti e = harq_entity.rnti e0).
  { unfold e. generalize e0. induction rxs as [|rx rxs IH]; intros e1; simpl.
    - auto.
    - destruct (IH (harq_entity.new_slot rx e1)) as (I1 & I2 & I3).
      destruct (new_slot_pids rx e1) as (P1 & P2 & _ & P4).
      repeat split; congruence. }
  destruct K as (K1 & K2 & K3).
  assert (Ld : length (harq_entity.dl_harqs e) = Z.to_nat nof_harq_procs).
  { transitivity (length (harq_entity.dl_pids e)).
    - unfold harq_entity.dl_pids. rewrite length_map. reflexivity.
    - rewrite K1, D0. unfold harq_entity.ids.
      rewrite length_map, length_seq. reflexivity. }
  assert (Lu : length (harq_entity.ul_harqs e) = Z.to_nat nof_harq_procs).
  { transitivity (length (harq_entity.ul_pids e)).
    - unfold harq_entity.ul_pids. rewrite length_map. reflexivity.
    - rewrite K2, U0. unfold harq_entity.ids.
      rewrite length_map, length_seq. reflexivity. }
  repeat split; try assumption; try congruence.
Qed.

(** X12: what [harq_entity::new_slot] logs.  It advances every process with
    [new_slot], records the slot, and adds to the log one message for each DL
    process, then one for each UL process, in the order of the arrays, that
    the call discards: a process in use whose ack slot is reached and for
    which one more retransmission would exceed the maximum.  Those are
    exactly the processes in use before the call and empty after it; a
    process that was already empty is never reported. *)
Theorem entity_new_slot_log {slot_point : Type} `{SlotPoint slot_point}
    (slot_rx_ : slot_point) (e : harq_entity.t slot_point) :
  harq_entity.new_slot slot_rx_ e =
    harq_entity.mk (harq_entity.rnti e)
      (map (fun d =>
              dl_harq_proc.mk (harq_proc.new_slot slot_rx_ (dl_harq_proc.base d))
                              (dl_harq_proc.pdu d))
           (harq_entity.dl_harqs e))
      (map (harq_proc.new_slot slot_rx_) (harq_entity.ul_harqs e))
      slot_rx_
      (harq_entity.logger e
       ++ map (harq_entity.msg_of harq_entity.DL (harq_entity.rnti e))
              (filter (harq_entity.discarded slot_rx_)
                      (map dl_harq_proc.base (harq_entity.dl_harqs e)))
       ++ map (harq_entity.msg_of harq_entity.UL (harq_entity.rnti e))
              (filter (harq_entity.discarded slot_rx_) (harq_entity.ul_harqs e))) /\
  (forall h : harq_proc.t slot_point,
     harq_entity.discarded slot_rx_ h = true <->
     harq_proc.state h <> tb_t.empty /\
     harq_proc.state (harq_proc.new_slot slot_rx_ h) = tb_t.empty) /\
  (forall h : harq_proc.t slot_point,
     harq_proc.state h = tb_t.empty ->
     harq_entity.discarded slot_rx_ h = false).
Proof.
  split; [apply new_slot_spec|]. split.
  - intros h. apply discarded_iff.
  - intros h Hs.
    destruct (harq_entity.discarded slot_rx_ h) eqn:Hd; [|reflexivity].
    apply discarded_iff in Hd. tauto.
Qed.

Lemma entity_new_slot_log_witness :
  harq_entity.discarded 14 (fresh_harq (slot_point := Z) 1 0) = false.
Proof.
  apply (proj2 (proj2 (@entity_new_slot_log Z Z_slot 14 example_entity))).
  reflexivity.
Defined.

(** X13: [harq_entity::new_slot] called a second time for the same slot
    changes nothing and logs nothing more. *)
Theorem entity_new_slot_idempotent {slot_point : Type} `{SlotPoint slot_point}
    (slot_rx_ : slot_point) (e : harq_entity.t slot_point) :
  harq_entity.new_slot slot_rx_ (harq_entity.new_slot slot_rx_ e)
  = harq_entity.new_slot slot_rx_ e.
Proof.
  rewrite (new_slot_spec slot_rx_ (harq_entity.new_slot slot_rx_ e)).
  rewrite (new_slot_spec slot_rx_ e). simpl.
  rewrite !map_map. simpl.
  rewrite <- (map_map dl_harq_proc.base (harq_proc.new_slot slot_rx_)).
  rewrite !filter_discarded_after, !app_nil_r. simpl.
  f_equal.
  - apply map_ext. intros d. rewrite new_slot_twice. reflexivity.
  - apply map_ext. intros u. apply new_slot_twice.
Qed.
